(** * Arihant Automobiles API: product catalogue and order processing

    A shallow embedding of [main.py] and [schemas.py].  The request
    handlers are modelled as functions over an explicit document store;
    Python exceptions are values of [exn], and a handler returns its result
    (or the exception it raised) together with the store it leaves behind. *)

From Stdlib Require Import ZArith String Ascii Floats.
From stdpp Require Import base option list sorting gmap strings.

Local Open Scope string_scope.
Local Open Scope Z_scope.
Local Open Scope list_scope.

(** ** Exceptions and HTTP outcomes *)

(** The exceptions that the handlers raise or let through.  [HTTPException]
    is FastAPI's; the others come from the bson and pymongo drivers.  All of
    them derive from Python's [Exception]. *)
Inductive exn : Type :=
  | HTTPException (status_code : Z) (detail : string)
  | InvalidId (oid : string)
  | DuplicateKeyError
  | OperationFailure (msg : string)
  | NotConfigured
  | OverflowError (msg : string)
  | InvalidDocument (msg : string).

Definition is_HTTPException (e : exn) : bool :=
  match e with HTTPException _ _ => true | _ => false end.

(** What the framework answers: an [HTTPException] becomes a response with
    its status code, any other exception escaping a handler becomes
    500 Internal Server Error, a normal return is 200. *)
Definition status_of_exn (e : exn) : Z :=
  match e with HTTPException c _ => c | _ => 500 end.

Definition status_of {A} (r : exn + A) : Z :=
  match r with inl e => status_of_exn e | inr _ => 200 end.

(** ** Object identifiers *)

(** A bson ObjectId is twelve bytes, and its string form is 24 lower-case
    hex digits.  A well-formed identifier is a string of 24 hex digits of
    either case.  The constructor [ObjectId(s)] takes more than those: it
    hands every string of 24 characters to [bytes.fromhex], which skips
    ASCII whitespace in front of a pair of digits, so that a string with
    whitespace in it makes a value of fewer than twelve bytes. *)
Inductive hexdigit : Type :=
  | H0 | H1 | H2 | H3 | H4 | H5 | H6 | H7
  | H8 | H9 | Ha | Hb | Hc | Hd | He | Hf.

#[global] Instance hexdigit_eq_dec : EqDecision hexdigit.
Proof. solve_decision. Defined.

Definition ObjectId : Type := list hexdigit.

Definition wf_ObjectId (o : ObjectId) : Prop := length o = 24%nat.

Definition hexdigit_to_ascii (h : hexdigit) : ascii :=
  match h with
  | H0 => "0" | H1 => "1" | H2 => "2" | H3 => "3"
  | H4 => "4" | H5 => "5" | H6 => "6" | H7 => "7"
  | H8 => "8" | H9 => "9" | Ha => "a" | Hb => "b"
  | Hc => "c" | Hd => "d" | He => "e" | Hf => "f"
  end%char.

Definition hexdigit_of_ascii (c : ascii) : option hexdigit :=
  match c with
  | "0" => Some H0 | "1" => Some H1 | "2" => Some H2 | "3" => Some H3
  | "4" => Some H4 | "5" => Some H5 | "6" => Some H6 | "7" => Some H7
  | "8" => Some H8 | "9" => Some H9
  | "a" => Some Ha | "b" => Some Hb | "c" => Some Hc
  | "d" => Some Hd | "e" => Some He | "f" => Some Hf
  | "A" => Some Ha | "B" => Some Hb | "C" => Some Hc
  | "D" => Some Hd | "E" => Some He | "F" => Some Hf
  | _ => None
  end%char.

(** [str(oid)] *)
Fixpoint ObjectId_str (o : ObjectId) : string :=
  match o with
  | [] => EmptyString
  | h :: o' => String (hexdigit_to_ascii h) (ObjectId_str o')
  end.

Fixpoint hexdigits_of_string (s : string) : option (list hexdigit) :=
  match s with
  | EmptyString => Some []
  | String c s' =>
      match hexdigit_of_ascii c, hexdigits_of_string s' with
      | Some h, Some o => Some (h :: o)
      | _, _ => None
      end
  end.

(** The identifier that a well-formed string denotes. *)
Definition ObjectId_parse (s : string) : option ObjectId :=
  if Nat.eqb (String.length s) 24
  then hexdigits_of_string s
  else None.

(** The ASCII whitespace that [bytes.fromhex] skips. *)
Definition is_space (c : ascii) : bool :=
  let n := nat_of_ascii c in
  (Nat.eqb n 32 || (Nat.leb 9 n && Nat.leb n 13))%bool.

(** [bytes.fromhex(s)], the bytes as their hex digits: whitespace is skipped
    where a byte may begin, and a byte is two digits next to each other. *)
Fixpoint fromhex (s : string) : option (list hexdigit) :=
  match s with
  | EmptyString => Some []
  | String c s' =>
      if is_space c then fromhex s'
      else
        match hexdigit_of_ascii c, s' with
        | Some top, String c' s'' =>
            match hexdigit_of_ascii c', fromhex s'' with
            | Some bot, Some v => Some (top :: bot :: v)
            | _, _ => None
            end
        | _, _ => None
        end
  end.

(** [ObjectId(s)]: the bytes of the value, [None] standing for the
    [InvalidId] the constructor raises. *)
Definition bson_ObjectId (s : string) : option (list hexdigit) :=
  if Nat.eqb (String.length s) 24 then fromhex s else None.

(** A value of twelve bytes, which is what the store keeps as [_id]. *)
Definition twelve_bytes (v : list hexdigit) : bool := Nat.eqb (length v) 24.

(** ** Data model ([schemas.py]) *)

Record Product : Type := mkProduct {
  title : string;
  description : option string;
  price : float;
  category : string;
  brand : option string;
  images : list string;
  stock : Z;
  specifications : gmap string string;
  featured : bool;
}.

Record OrderItem : Type := mkOrderItem {
  product_id : string;
  item_title : string;
  item_price : float;
  quantity : Z;
  image : option string;
}.

Record Customer : Type := mkCustomer {
  name : string;
  email : string;
  phone : option string;
  address : string;
  city : option string;
  state : option string;
  postal_code : option string;
}.

Record Order : Type := mkOrder {
  items : list OrderItem;
  customer : Customer;
  subtotal : float;
  shipping : float;
  total : float;
  status : string;
  notes : option string;
}.

(** The body of [POST /api/orders] before pydantic fills in the defaults of
    [Order]: [shipping], [status] and [notes] may be left out. *)
Record OrderPayload : Type := mkOrderPayload {
  payload_items : list OrderItem;
  payload_customer : Customer;
  payload_subtotal : float;
  payload_shipping : option float;
  payload_total : float;
  payload_status : option string;
  payload_notes : option string;
}.

Definition Order_of_payload (b : OrderPayload) : Order :=
  {| items := payload_items b;
     customer := payload_customer b;
     subtotal := payload_subtotal b;
     shipping := default 0%float (payload_shipping b);
     total := payload_total b;
     status := default "pending" (payload_status b);
     notes := payload_notes b |}.

(** ** The document store *)

(** A stored document: the model's fields plus the time stamps the server
    adds.  [schemas.py] types each collection by its pydantic model, and the
    only writers of the two collections are the handlers below, so a stored
    product carries every field of [Product]; in particular
    [prod.get("stock", 0)] reads the stored [stock]. *)
Record ProductDoc : Type := mkProductDoc {
  doc_product : Product;
  product_created_at : option Z;
  product_updated_at : option Z;
}.

Record OrderDoc : Type := mkOrderDoc {
  doc_order : Order;
  order_created_at : option Z;
}.

(** A collection keeps its documents in natural (insertion) order, each
    under its [_id]. *)
Definition collection (D : Type) : Type := list (ObjectId * D).

Record Store : Type := mkStore {
  product_coll : collection ProductDoc;    (* db["product"] *)
  order_coll : collection OrderDoc;        (* db["order"] *)
}.

Section Collection.
Context {D : Type}.

(** [find_one({"_id": oid})] *)
Fixpoint find_one (oid : ObjectId) (c : collection D) : option D :=
  match c with
  | [] => None
  | (k, d) :: c' => if decide (k = oid) then Some d else find_one oid c'
  end.

(** [update_one({"_id": oid}, u)]: the first match is rewritten, and
    nothing happens when there is none. *)
Fixpoint update_one (oid : ObjectId) (u : D → D) (c : collection D)
  : collection D :=
  match c with
  | [] => []
  | (k, d) :: c' =>
      if decide (k = oid) then (k, u d) :: c'
      else (k, d) :: update_one oid u c'
  end.

(** [delete_one({"_id": oid})], with its [deleted_count]. *)
Fixpoint delete_one (oid : ObjectId) (c : collection D)
  : collection D * Z :=
  match c with
  | [] => ([], 0)
  | (k, d) :: c' =>
      if decide (k = oid) then (c', 1)
      else let '(c'', n) := delete_one oid c' in ((k, d) :: c'', n)
  end.

(** [insert_one(doc)] under the [_id] the driver generated; the unique
    index on [_id] rejects a second document with the same one. *)
Definition insert_one (oid : ObjectId) (d : D) (c : collection D)
  : option (collection D) :=
  match find_one oid c with
  | Some _ => None
  | None => Some (c ++ [(oid, d)])
  end.

(** [cursor.limit(n)]: pymongo documents that a limit of 0 is equivalent
    to no limit, and it sends the absolute value of a negative one. *)
Definition cursor_limit (n : Z) (c : list (ObjectId * D))
  : list (ObjectId * D) :=
  if n =? 0 then c else take (Z.abs_nat n) c.

(** Matching [{"_id": v}] for a value [v] made by [ObjectId]: the stored
    identifiers are twelve bytes each, so a value of another length is
    equal to none of them. *)
Definition find_by_id (v : list hexdigit) (c : collection D) : option D :=
  if twelve_bytes v then find_one v c else None.

Definition update_by_id (v : list hexdigit) (u : D → D) (c : collection D)
  : collection D :=
  if twelve_bytes v then update_one v u c else c.

Definition delete_by_id (v : list hexdigit) (c : collection D)
  : collection D * Z :=
  if twelve_bytes v then delete_one v c else (c, 0).
End Collection.

(** ** Handlers as store transformers *)

(** A computation runs on the store and ends with a value or with a raised
    exception; writes made before a raise stay in the store. *)
Definition M (A : Type) : Type := Store → (exn + A) * Store.

#[global] Instance M_ret : MRet M := λ A (a : A) st, (inr a, st).

#[global] Instance M_bind : MBind M := λ A B (k : A → M B) (c : M A) st,
  match c st with
  | (inl e, st') => (inl e, st')
  | (inr a, st') => k a st'
  end.

Definition raise {A} (e : exn) : M A := λ st, (inl e, st).

(** [try: c  except ...: h e] *)
Definition try_except {A} (c : M A) (h : exn → M A) : M A := λ st,
  match c st with
  | (inl e, st') => h e st'
  | (inr a, st') => (inr a, st')
  end.

Definition get_store : M Store := λ st, (inr st, st).
Definition modify_store (f : Store → Store) : M unit := λ st, (inr tt, f st).

(** [for x in xs: body x] *)
Fixpoint for_each {A} (xs : list A) (body : A → M unit) : M unit :=
  match xs with
  | [] => mret tt
  | x :: xs' => body x ;; for_each xs' body
  end.

(** [ObjectId(s)] as a computation. *)
Definition ObjectId_ (s : string) : M (list hexdigit) :=
  match bson_ObjectId s with
  | Some v => mret v
  | None => raise (InvalidId s)
  end.

(** The module-level [db] is [None] when no database is configured; every
    handler starts with [if db is None: raise HTTPException(500, ...)]. *)
Definition with_db {A} (db : option Store) (body : M A)
  : (exn + A) * option Store :=
  match db with
  | None => (inl (HTTPException 500 "Database not configured"), None)
  | Some st => let '(r, st') := body st in (r, Some st')
  end.

(** [db[name]]: a handle on one collection of the store. *)
Record handle (D : Type) : Type := mkHandle {
  read : Store → collection D;
  write : collection D → Store → Store;
}.
Arguments read {D} _ _.
Arguments write {D} _ _ _.

Definition product : handle ProductDoc :=
  {| read := product_coll;
     write := λ c st, {| product_coll := c; order_coll := order_coll st |} |}.

Definition order : handle OrderDoc :=
  {| read := order_coll;
     write := λ c st, {| product_coll := product_coll st; order_coll := c |} |}.

Definition coll_find_one {D} (h : handle D) (oid : ObjectId) : M (option D) :=
  λ st, (inr (find_by_id oid (read h st)), st).

Definition coll_update_one {D} (h : handle D) (oid : ObjectId) (u : D → D)
  : M unit :=
  modify_store (λ st, write h (update_by_id oid u (read h st)) st).

(** [find_one_and_update(..., return_document=True)]: the document as it is
    after the update, or [None] when nothing matched. *)
Definition coll_find_one_and_update {D} (h : handle D) (oid : ObjectId)
    (u : D → D) : M (option D) :=
  coll_update_one h oid u ;; coll_find_one h oid.

Definition coll_delete_one {D} (h : handle D) (oid : ObjectId) : M Z :=
  λ st, let '(c, n) := delete_by_id oid (read h st) in (inr n, write h c st).

(** Modelled from the spec: [create_document] of [database.py], which is
    not among the sources.  The spec has it insert the document and return
    the new identifier, without deduplication.  [new_id] is the identifier
    the driver generates for the insertion, and [doc] the dumped model as it
    is stored. *)
Definition create_document {D} (h : handle D) (new_id : ObjectId) (doc : D)
  : M string :=
  st ← get_store;
  match insert_one new_id doc (read h st) with
  | None => raise DuplicateKeyError
  | Some c => modify_store (write h c) ;; mret (ObjectId_str new_id)
  end.

(** Modelled from the spec: the guard of [create_document] against a store
    that is not configured, which the spec surfaces as a server error. *)
Definition with_store {A} (db : option Store) (body : M A)
  : (exn + A) * option Store :=
  match db with
  | None => (inl NotConfigured, None)
  | Some st => let '(r, st') := body st in (r, Some st')
  end.

(** ** Response models *)

Record ProductOut : Type := mkProductOut {
  id : string;
  out_title : string;
  out_description : option string;
  out_price : float;
  out_category : string;
  out_brand : option string;
  out_images : list string;
  out_stock : Z;
  out_specifications : gmap string string;
  out_featured : bool;
}.

Record OrderOut : Type := mkOrderOut {
  order_id : string;
  out_total : float;
  out_status : string;
  out_items : list OrderItem;
  out_customer : Customer;
}.

(** [d["id"] = str(d.pop("_id"))], then the projection onto the fields of
    the response model. *)
Definition ProductOut_of (oid : ObjectId) (d : ProductDoc) : ProductOut :=
  let p := doc_product d in
  {| id := ObjectId_str oid;
     out_title := title p;
     out_description := description p;
     out_price := price p;
     out_category := category p;
     out_brand := brand p;
     out_images := images p;
     out_stock := stock p;
     out_specifications := specifications p;
     out_featured := featured p |}.

Definition OrderOut_of (oid : ObjectId) (d : OrderDoc) : OrderOut :=
  let o := doc_order d in
  {| order_id := ObjectId_str oid;
     out_total := total o;
     out_status := status o;
     out_items := items o;
     out_customer := customer o |}.

(** The product a response describes: its fields without the identifier. *)
Definition Product_of_out (o : ProductOut) : Product :=
  {| title := out_title o;
     description := out_description o;
     price := out_price o;
     category := out_category o;
     brand := out_brand o;
     images := out_images o;
     stock := out_stock o;
     specifications := out_specifications o;
     featured := out_featured o |}.

(** ** Product endpoints *)

(** [POST /api/products].  [stamp] is what [create_document] records as
    creation and modification times, if it records any. *)
Definition create_product (new_id : ObjectId) (stamp : option Z)
    (payload : Product) (db : option Store) : (exn + string) * option Store :=
  with_store db
    (create_document product new_id
       {| doc_product := payload;
          product_created_at := stamp;
          product_updated_at := stamp |}).

(** [GET /api/products/{product_id}].  The [except Exception] clause
    encloses the whole body, the [raise] of the 404 included. *)
Definition get_product (product_id : string) (db : option Store)
  : (exn + ProductOut) * option Store :=
  with_db db
    (try_except
       (oid ← ObjectId_ product_id;
        doc ← coll_find_one product oid;
        match doc with
        | None => raise (HTTPException 404 "Product not found")
        | Some d => mret (ProductOut_of oid d)
        end)
       (λ _, raise (HTTPException 400 "Invalid product id"))).

(** What the driver refuses to encode in a dumped [Product]: an integer
    that does not fit eight bytes, and a key with a NUL character in it. *)
Definition int64 (z : Z) : bool := ((- 2 ^ 63 <=? z) && (z <? 2 ^ 63))%bool.

Definition has_NUL (s : string) : bool :=
  existsb (Ascii.eqb Ascii.zero) (list_ascii_of_string s).

Definition bson_encode_Product (p : Product) : option exn :=
  if negb (int64 (stock p))
  then Some (OverflowError "MongoDB can only handle up to 8-byte ints")
  else if existsb has_NUL (map_to_list (specifications p)).*1
  then Some (InvalidDocument "BSON keys must not contain a NUL character")
  else None.

(** [PUT /api/products/{product_id}]; [now] is [datetime.utcnow()].  The
    filter is built, [ObjectId(product_id)] included, before the call that
    encodes the update and sends it. *)
Definition update_product (now : Z) (product_id : string) (payload : Product)
    (db : option Store) : (exn + ProductOut) * option Store :=
  with_db db
    (oid ← ObjectId_ product_id;
     from_option raise (mret tt) (bson_encode_Product payload) ;;
     res ← coll_find_one_and_update product oid
             (λ d, {| doc_product := payload;
                      product_created_at := product_created_at d;
                      product_updated_at := Some now |});
     match res with
     | None => raise (HTTPException 404 "Product not found")
     | Some d => mret (ProductOut_of oid d)
     end).

(** [DELETE /api/products/{product_id}] *)
Definition delete_product (product_id : string) (db : option Store)
  : (exn + bool) * option Store :=
  with_db db
    (oid ← ObjectId_ product_id;
     deleted_count ← coll_delete_one product oid;
     if deleted_count =? 0
     then raise (HTTPException 404 "Product not found")
     else mret true).

(** ** Order endpoints *)

(** The body of the first loop of [create_order] for one line item. *)
Definition validate_item (item : OrderItem) : M unit :=
  try_except
    (oid ← ObjectId_ (product_id item);
     prod ← coll_find_one product oid;
     match prod with
     | None =>
         raise (HTTPException 400 ("Product not found: " +:+ product_id item))
     | Some d =>
         if stock (doc_product d) <? quantity item
         then raise (HTTPException 400
                       ("Insufficient stock for " +:+ title (doc_product d)))
         else mret tt
     end)
    (λ e, if is_HTTPException e then raise e
          else raise (HTTPException 400 "Invalid product id in order")).

(** [{"$inc": {"stock": n}}] *)
Definition inc_stock (n : Z) (d : ProductDoc) : ProductDoc :=
  let p := doc_product d in
  {| doc_product :=
       {| title := title p; description := description p; price := price p;
          category := category p; brand := brand p; images := images p;
          stock := stock p + n;
          specifications := specifications p; featured := featured p |};
     product_created_at := product_created_at d;
     product_updated_at := product_updated_at d |}.

(** The body of the second loop of [create_order]. *)
Definition deduct_item (item : OrderItem) : M unit :=
  oid ← ObjectId_ (product_id item);
  coll_update_one product oid (inc_stock (- quantity item)).

(** [POST /api/orders].  [stamp] is the creation time [create_document]
    records, if it records any. *)
Definition create_order (new_id : ObjectId) (stamp : option Z) (o : Order)
    (db : option Store) : (exn + string) * option Store :=
  with_db db
    (for_each (items o) validate_item ;;
     for_each (items o) deduct_item ;;
     create_document order new_id
       {| doc_order := o; order_created_at := stamp |}).

(** The order of null and missing values below every date, as the store
    compares them. *)
Definition created_le (a b : option Z) : bool :=
  match a, b with
  | None, _ => true
  | Some _, None => false
  | Some x, Some y => x <=? y
  end.

(** [x] may stand before [y] under [sort("created_at", -1)]. *)
Definition newest_first (x y : ObjectId * OrderDoc) : Prop :=
  created_le (order_created_at y.2) (order_created_at x.2) = true.

#[global] Instance newest_first_dec x y : Decision (newest_first x y).
Proof. unfold newest_first. apply _. Defined.

(** [GET /api/orders]; [limit] is the query parameter, 100 when left out.
    The store does not say how it orders documents with equal keys; the
    model sorts with a merge sort. *)
Definition list_orders (limit : option Z) (db : option Store)
  : (exn + list OrderOut) * option Store :=
  with_db db
    (st ← get_store;
     let docs :=
       cursor_limit (default 100 limit)
         (merge_sort newest_first (read order st)) in
     mret ((λ d, OrderOut_of d.1 d.2) <$> docs)).

(** ** Product listing *)

(** The scalar values a filter compares, and the filter documents that
    [list_products] builds. *)
Inductive value : Type :=
  | VNull
  | VStr (s : string)
  | VBool (b : bool)
  | VInt (z : Z).

#[global] Instance value_eq_dec : EqDecision value.
Proof. solve_decision. Defined.

Inductive qcond : Type :=
  | QEq (v : value)                          (* field: v *)
  | QRegex (pattern options : string).       (* field: {$regex, $options} *)

Inductive qentry : Type :=
  | QField (field : string) (c : qcond)
  | QOr (alternatives : list (string * qcond)).   (* $or: [{f: c}, ...] *)

Definition query : Type := list qentry.

(** The scalar fields of a stored product, by name. *)
Definition product_field (d : ProductDoc) (k : string) : option value :=
  let p := doc_product d in
  if decide (k = "title") then Some (VStr (title p))
  else if decide (k = "description")
       then Some (from_option VStr VNull (description p))
  else if decide (k = "category") then Some (VStr (category p))
  else if decide (k = "brand") then Some (from_option VStr VNull (brand p))
  else if decide (k = "stock") then Some (VInt (stock p))
  else if decide (k = "featured") then Some (VBool (featured p))
  else None.

(** The store's regular-expression engine: a pattern and its options
    compile to a search over strings, or are rejected. *)
Definition regex_engine : Type := string → string → option (string → bool).

Definition compile_cond (eng : regex_engine) (c : qcond)
  : option (option value → bool) :=
  match c with
  | QEq v =>
      Some (λ ov, match ov with
                  | Some w => bool_decide (w = v)
                  | None => bool_decide (v = VNull)
                  end)
  | QRegex p o =>
      m ← eng p o;
      Some (λ ov, match ov with Some (VStr s) => m s | _ => false end)
  end.

Definition compile_field (eng : regex_engine) (kc : string * qcond)
  : option (ProductDoc → bool) :=
  f ← compile_cond eng kc.2; Some (λ d, f (product_field d kc.1)).

Definition compile_entry (eng : regex_engine) (e : qentry)
  : option (ProductDoc → bool) :=
  match e with
  | QField k c => compile_field eng (k, c)
  | QOr alts =>
      fs ← mapM (compile_field eng) alts;
      Some (λ d, existsb (λ f : ProductDoc → bool, f d) fs)
  end.

(** A filter document holds of a product when every entry does. *)
Definition compile_query (eng : regex_engine) (q : query)
  : option (ProductDoc → bool) :=
  fs ← mapM (compile_entry eng) q;
  Some (λ d, forallb (λ f : ProductDoc → bool, f d) fs).

(** [list(db["product"].find(query).limit(limit))] *)
Definition find_products (eng : regex_engine) (q : query) (limit : Z)
  : M (list (ObjectId * ProductDoc)) :=
  match compile_query eng q with
  | None => raise (OperationFailure "Regular expression is invalid")
  | Some holds =>
      st ← get_store;
      mret (cursor_limit limit
              (List.filter (λ d, holds d.2) (read product st)))
  end.

(** Python truthiness of an optional string: [None] and [""] are false. *)
Definition truthy (o : option string) : option string :=
  match o with
  | Some s => if decide (s = "") then None else Some s
  | None => None
  end.

(** The filter document of [list_products], entry by entry. *)
Definition build_query (q category : option string) (featured : option bool)
  : query :=
  let query := [] in
  let query :=
    match truthy q with
    | Some q => query ++ [QOr [("title", QRegex q "i");
                               ("description", QRegex q "i")]]
    | None => query
    end in
  let query :=
    match truthy category with
    | Some c => query ++ [QField "category" (QEq (VStr c))]
    | None => query
    end in
  match featured with
  | Some f => query ++ [QField "featured" (QEq (VBool f))]
  | None => query
  end.

(** [GET /api/products] *)
Definition list_products (eng : regex_engine) (q category : option string)
    (featured : option bool) (limit : option Z) (db : option Store)
  : (exn + list ProductOut) * option Store :=
  with_db db
    (docs ← find_products eng (build_query q category featured)
              (default 100 limit);
     mret ((λ d, ProductOut_of d.1 d.2) <$> docs)).

(** Case-insensitive search of a literal word, for the patterns that are
    one: ASCII letters compare by their lower-case form. *)
Definition lower_ascii (c : ascii) : ascii :=
  let n := nat_of_ascii c in
  if (Nat.leb 65 n && Nat.leb n 90)%bool then ascii_of_nat (n + 32) else c.

Fixpoint lower (s : string) : string :=
  match s with
  | EmptyString => EmptyString
  | String c s' => String (lower_ascii c) (lower s')
  end.

Fixpoint contains (q s : string) : bool :=
  (String.prefix q s ||
   match s with
   | EmptyString => false
   | String _ s' => contains q s'
   end)%bool.

Definition ci_contains (q s : string) : bool := contains (lower q) (lower s).

(** The characters that a regular expression does not read literally, and
    the NUL character, which a pattern may not contain. *)
Definition regex_meta (c : ascii) : bool :=
  existsb (Ascii.eqb c)
    (Ascii.zero :: list_ascii_of_string "\^$.[]|()?*+{}").

(** A pattern that is a plain word: none of its characters is special. *)
Definition literal_pattern (q : string) : bool :=
  forallb (λ c, negb (regex_meta c)) (list_ascii_of_string q).

(** ** The admin gate and the application *)

(** What the parameter [x_admin_key] of [require_admin] is bound to: the
    [Header(default=None)] object that is its default when the function is
    called without an argument, or the header of a request ([None] when the
    request has none) when the framework resolves it. *)
Inductive header_param : Type :=
  | HeaderInfo
  | HeaderValue (v : option string).

(** [x_admin_key != admin_key], [admin_key] being a string. *)
Definition differs (x : header_param) (admin_key : string) : bool :=
  match x with
  | HeaderValue (Some s) => negb (String.eqb s admin_key)
  | HeaderValue None => true
  | HeaderInfo => true
  end.

(** [require_admin]; [admin_key] is [os.getenv("ADMIN_API_KEY")]. *)
Definition require_admin (admin_key : option string)
    (x_admin_key : header_param) : exn + bool :=
  match truthy admin_key with
  | None => inr true
  | Some k =>
      if differs x_admin_key k
      then inl (HTTPException 401 "Invalid admin key")
      else inr true
  end.

(** The default values of the parameter [_] of the four handlers declared
    with [_=require_admin()].  Python evaluates a default once, when the
    [def] statement runs. *)
Record App : Type := mkApp {
  create_product_default : bool;
  update_product_default : bool;
  delete_product_default : bool;
  list_orders_default : bool;
}.

(** Importing [main]: the [def] statements in their order.  An exception
    raised by a default ends the import. *)
Definition import_main (admin_key : option string) : exn + App :=
  match require_admin admin_key HeaderInfo with
  | inl e => inl e
  | inr d1 =>
  match require_admin admin_key HeaderInfo with
  | inl e => inl e
  | inr d2 =>
  match require_admin admin_key HeaderInfo with
  | inl e => inl e
  | inr d3 =>
  match require_admin admin_key HeaderInfo with
  | inl e => inl e
  | inr d4 => inr (mkApp d1 d2 d3 d4)
  end end end end.

Inductive Endpoint : Type :=
  | GET_products (q category : option string) (featured : option bool)
      (limit : option Z)
  | POST_products (payload : Product)
  | GET_product (product_id : string)
  | PUT_product (product_id : string) (payload : Product)
  | DELETE_product (product_id : string)
  | POST_orders (payload : OrderPayload)
  | GET_orders (limit : option Z).

Record Request : Type := mkRequest {
  x_admin_key : option string;        (* the X-Admin-Key header *)
  endpoint : Endpoint;
}.

Inductive Response : Type :=
  | Products (l : list ProductOut)
  | OneProduct (p : ProductOut)
  | NewId (s : string)
  | Deleted (b : bool)
  | Orders (l : list OrderOut).

(** What a request meets outside the program: the identifier the driver
    generates for an insertion, the clock, the stamp of [create_document]
    and the store's regular-expression engine. *)
Record World : Type := mkWorld {
  new_id : ObjectId;
  now : Z;
  stamp : option Z;
  regex : regex_engine;
}.

Definition respond {A} (f : A → Response) (r : (exn + A) * option Store)
  : (exn + Response) * option Store :=
  (match r.1 with inl e => inl e | inr a => inr (f a) end, r.2).

(** Routing.  A gated handler receives the default of its parameter [_];
    no handler reads the request's headers. *)
Definition dispatch (app : App) (w : World) (req : Request) (db : option Store)
  : (exn + Response) * option Store :=
  match endpoint req with
  | GET_products q c f l => respond Products (list_products (regex w) q c f l db)
  | POST_products p =>
      let _ := create_product_default app in
      respond NewId (create_product (new_id w) (stamp w) p db)
  | GET_product i => respond OneProduct (get_product i db)
  | PUT_product i p =>
      let _ := update_product_default app in
      respond OneProduct (update_product (now w) i p db)
  | DELETE_product i =>
      let _ := delete_product_default app in
      respond Deleted (delete_product i db)
  | POST_orders b =>
      respond NewId (create_order (new_id w) (stamp w) (Order_of_payload b) db)
  | GET_orders l =>
      let _ := list_orders_default app in
      respond Orders (list_orders l db)
  end.

(** The program as deployed with [ADMIN_API_KEY] set to [admin_key]: it
    serves requests once its import has succeeded. *)
Definition serve (admin_key : option string) (w : World) (req : Request)
    (db : option Store) : exn + (exn + Response) * option Store :=
  match import_main admin_key with
  | inl e => inl e
  | inr app => inr (dispatch app w req db)
  end.

(** ** Predicates of the specification *)

(** An identifier that [ObjectId] accepts and that no stored product has. *)
Definition unmatched (pid : string) (db : option Store) : Prop :=
  ∃ st v, db = Some st ∧ bson_ObjectId pid = Some v
          ∧ find_by_id v (product_coll st) = None.

(** The three ways a line item fails validation, and what passing means,
    both read against the store as it is when the request arrives. *)
Definition fails_validation (st : Store) (item : OrderItem) : Prop :=
  ObjectId_parse (product_id item) = None
  ∨ (∃ oid, ObjectId_parse (product_id item) = Some oid
            ∧ find_one oid (product_coll st) = None)
  ∨ (∃ oid d, ObjectId_parse (product_id item) = Some oid
              ∧ find_one oid (product_coll st) = Some d
              ∧ stock (doc_product d) < quantity item).

Definition passes_validation (st : Store) (item : OrderItem) : Prop :=
  ∃ oid d, ObjectId_parse (product_id item) = Some oid
           ∧ find_one oid (product_coll st) = Some d
           ∧ quantity item <= stock (doc_product d).

(** What an order asks of one product: the quantities of all its line items
    that reference it. *)
Definition ordered_quantity (oid : ObjectId) (its : list OrderItem) : Z :=
  foldr (λ item acc,
           (if decide (ObjectId_parse (product_id item) = Some oid)
            then quantity item else 0) + acc)
        0 its.

(** The listing filter in the words of the specification: the text filter
    holds when the search finds the query in the title or in the
    description, the category and featured filters are exact matches, the
    filters that are applied combine with AND, and an omitted filter
    ([None]) is not applied. *)
Definition text_holds (m : string → bool) (d : ProductDoc) : bool :=
  (m (title (doc_product d))
   || from_option m false (description (doc_product d)))%bool.

Definition listing_spec (text : option (string → bool)) (cat : option string)
    (feat : option bool) (d : ProductDoc) : bool :=
  (from_option (λ m, text_holds m d) true text
   && from_option (λ c, bool_decide (category (doc_product d) = c)) true cat
   && from_option (λ f, bool_decide (featured (doc_product d) = f)) true feat
  )%bool.

(** [s] contains [q] up to the case of its letters. *)
Definition occurs_ci (q s : string) : Prop :=
  ∃ pre w post, s = pre +:+ w +:+ post ∧ lower w = lower q.

(** What is assumed of the store's engine about a pattern without special
    characters, compiled with option [i]: it is accepted, and it finds
    every occurrence of the word whatever the case of the letters. *)
Definition engine_literal_ci (eng : regex_engine) : Prop :=
  ∀ q, literal_pattern q = true
       → ∃ m, eng q "i" = Some m ∧ ∀ s, ci_contains q s = true → m s = true.

(** ** Sample data *)

Definition example_wheel : Product :=
  {| title := "Alloy Wheel"; description := None; price := 5000%float;
     category := "Accessories"; brand := Some "Arihant"; images := [];
     stock := 10; specifications := ∅; featured := false |}.

Definition example_wheel_id : ObjectId := replicate 24 H1.

Definition example_store : Store :=
  {| product_coll := [(example_wheel_id, mkProductDoc example_wheel None None)];
     order_coll := [] |}.

Definition example_customer : Customer :=
  mkCustomer "Asha" "asha@example.com" None "12 Ring Road" None None None.

Definition example_item (quantity : Z) : OrderItem :=
  mkOrderItem "111111111111111111111111" "Alloy Wheel" 5000%float quantity None.

Definition example_payload (its : list OrderItem) : OrderPayload :=
  mkOrderPayload its example_customer 10000%float None 10000%float None None.

Definition example_order_id : ObjectId := replicate 24 H2.

Definition example_cover : Product :=
  {| title := "Seat Cover (sport)";
     description := Some "Matches the ALLOY WHEEL trim";
     price := 1500%float; category := "Accessories"; brand := Some "Arihant";
     images := []; stock := 4; specifications := ∅; featured := true |}.

Definition example_cover_id : ObjectId := replicate 24 H3.

Definition example_catalogue : Store :=
  {| product_coll :=
       [(example_wheel_id, mkProductDoc example_wheel None None);
        (example_cover_id, mkProductDoc example_cover None None)];
     order_coll := [] |}.

(** The store's engine on the patterns of the examples: a pattern without
    special characters is searched as a word, without regard to case under
    option [i]; the other pattern the examples use is the lone opening
    parenthesis, which the store refuses as an unterminated group, and the
    sample engine refuses whatever it does not read as a word. *)
Definition example_engine : regex_engine :=
  λ pattern options,
    if literal_pattern pattern
    then Some (if decide (options = "i") then ci_contains pattern
               else contains pattern)
    else None.

Definition example_order_store : Store :=
  {| product_coll := [];
     order_coll :=
       [(example_order_id,
         {| doc_order := Order_of_payload (example_payload [example_item 2]);
            order_created_at := Some 1700000000 |})] |}.

Ltac run_M :=
  unfold validate_item, deduct_item, try_except, ObjectId_, coll_find_one,
    coll_update_one, create_document, get_store, modify_store,
    mbind, M_bind, mret, M_ret, raise; simpl.

(** ** Further predicates and the identifier validator *)

(** The unique index on [_id]: no two documents of a collection share an
    identifier. *)
Definition unique_ids {D} (c : collection D) : Prop := NoDup (c.*1).

(** The constraint [ge=1] on [OrderItem.quantity]. *)
Definition valid_OrderItem (item : OrderItem) : Prop := 1 <= quantity item.

(** Two stored products that differ at most in their stock. *)
Definition same_but_stock (x y : ObjectId * ProductDoc) : Prop :=
  x.1 = y.1 ∧ ∃ n, y.2 = inc_stock n x.2.

(** What [ObjectIdStr.validate] is given: an [ObjectId], a string, or any
    other value, which the validator only reads through [str(v)]. *)
Inductive pyvalue : Type :=
  | PyObjectId (o : ObjectId)
  | PyStr (s : string)
  | PyOther (str : string).

(** [ObjectIdStr.validate]; [inl msg] is [ValueError(msg)]. *)
Definition ObjectIdStr_validate (v : pyvalue) : string + string :=
  match v with
  | PyObjectId o => inr (ObjectId_str o)
  | PyStr s | PyOther s =>
      match bson_ObjectId s with
      | Some _ => inr s
      | None => inl "Invalid ObjectId"
      end
  end.

(** ** The connectivity probe ([GET /test]) *)

(** Python strings are sequences of code points; here they are their UTF-8
    bytes.  A byte of the form [10xxxxxx] continues the code point begun
    before it. *)
Definition is_continuation (c : ascii) : bool :=
  let n := nat_of_ascii c in (Nat.leb 128 n && Nat.ltb n 192)%bool.

(** [len(s)], in code points. *)
Fixpoint count_chars (s : string) : nat :=
  match s with
  | EmptyString => 0%nat
  | String c s' =>
      if is_continuation c then count_chars s' else S (count_chars s')
  end.

(** [s[:n]]: the first [n] code points, each with all its bytes. *)
Fixpoint take_chars (n : nat) (s : string) : string :=
  match s with
  | EmptyString => EmptyString
  | String c s' =>
      if is_continuation c then String c (take_chars n s')
      else match n with
           | O => EmptyString
           | S n' => String c (take_chars n' s')
           end
  end.

(** What the probe reads of the database handle: its [name], and what
    [list_collection_names()] gives, [inl msg] standing for an exception
    whose [str] is [msg]. *)
Record Database : Type := mkDatabase {
  db_name : string;
  list_collection_names : string + list string;
}.

Record Probe : Type := mkProbe {
  backend : string;
  database : string;
  database_url : string;
  database_name : string;
  collections : list string;
}.

(** [test_database]; [url] is [os.getenv("DATABASE_URL")].  The response is
    filled in key by key, so the keys written before an exception keep
    their new values. *)
Definition test_database (url : option string) (db : option Database) : Probe :=
  let response :=
    {| backend := "✅ Running";
       database := "❌ Not Available";
       database_url := "❌ Not Set";
       database_name := "❌ Not Set";
       collections := [] |} in
  match db with
  | Some d =>
      let connected := "✅ Connected" in
      let url_set := match truthy url with
                     | Some _ => "✅ Set"
                     | None => "❌ Not Set"
                     end in
      match list_collection_names d with
      | inr names =>
          {| backend := backend response;
             database := connected;
             database_url := url_set;
             database_name := db_name d;
             collections := names |}
      | inl msg =>
          {| backend := backend response;
             database := "⚠️ " +:+ take_chars 80 msg;
             database_url := url_set;
             database_name := db_name d;
             collections := collections response |}
      end
  | None =>
      {| backend := backend response;
         database := "❌ Not Available";
         database_url := database_url response;
         database_name := database_name response;
         collections := collections response |}
  end.

Ltac run_handler :=
  unfold update_product, delete_product, with_db, ObjectId_,
    coll_find_one_and_update, coll_update_one, coll_find_one,
    coll_delete_one, modify_store, mbind, M_bind, mret, M_ret, raise; simpl.

(** * Properties *)

(** ** Identifiers *)

Lemma hexdigit_of_to_ascii h : hexdigit_of_ascii (hexdigit_to_ascii h) = Some h.
Proof. by destruct h. Qed.

Lemma hexdigits_of_ObjectId_str o : hexdigits_of_string (ObjectId_str o) = Some o.
Proof.
  induction o as [|h o IH]; simpl; [done|].
  by rewrite hexdigit_of_to_ascii, IH.
Qed.

Lemma length_ObjectId_str o : String.length (ObjectId_str o) = length o.
Proof. induction o; simpl; congruence. Qed.

(** Parsing the string form of an identifier gives the identifier back. *)
Lemma ObjectId_parse_str o :
  wf_ObjectId o → ObjectId_parse (ObjectId_str o) = Some o.
Proof.
  unfold wf_ObjectId, ObjectId_parse. intros Hlen.
  rewrite length_ObjectId_str, Hlen. simpl. apply hexdigits_of_ObjectId_str.
Qed.

Lemma hexdigits_of_string_length s o :
  hexdigits_of_string s = Some o → length o = String.length s.
Proof.
  revert o. induction s as [|c s IH]; intros o; simpl.
  - by intros [= <-].
  - destruct (hexdigit_of_ascii c); [|done].
    destruct (hexdigits_of_string s) as [o'|]; [|done].
    intros [= <-]. simpl. f_equal. by apply IH.
Qed.

(** Only twelve-byte identifiers come out of the parser. *)
Lemma ObjectId_parse_wf s o : ObjectId_parse s = Some o → wf_ObjectId o.
Proof.
  unfold ObjectId_parse, wf_ObjectId.
  destruct (Nat.eqb_spec (String.length s) 24) as [Hlen|]; [|done].
  intros H%hexdigits_of_string_length. congruence.
Qed.

Lemma hexdigit_not_space c h : hexdigit_of_ascii c = Some h → is_space c = false.
Proof.
  destruct c as [[] [] [] [] [] [] [] []]; vm_compute; intros Hc;
    simplify_eq; done.
Qed.

Lemma fromhex_hexdigits n s o :
  String.length s = (2 * n)%nat
  → hexdigits_of_string s = Some o → fromhex s = Some o.
Proof.
  revert s o. induction n as [|n IH]; intros s o Hlen.
  - destruct s; [|done]. by intros [= <-].
  - destruct s as [|c [|c' s]]; simpl in Hlen; [lia..|].
    simpl. destruct (hexdigit_of_ascii c) as [h|] eqn:Hc; [|done].
    destruct (hexdigit_of_ascii c') as [h'|] eqn:Hc'; [|done].
    destruct (hexdigits_of_string s) as [o'|] eqn:Ho; [|done].
    intros [= <-]. rewrite (hexdigit_not_space c h Hc).
    rewrite (IH s o'); [done | lia | done].
Qed.

(** What [fromhex] reads has a digit for every character only if every
    character is a digit. *)
Lemma fromhex_length n s v :
  (String.length s ≤ n)%nat
  → fromhex s = Some v
  → (length v ≤ String.length s)%nat
    ∧ (length v = String.length s → hexdigits_of_string s = Some v).
Proof.
  revert s v. induction n as [|n IH]; intros s v Hlen.
  - destruct s; [|simpl in Hlen; lia]. intros [= <-]. by split.
  - destruct s as [|c s]; [intros [= <-]; by split|].
    simpl in Hlen. simpl. destruct (is_space c).
    + intros Hv. destruct (IH s v ltac:(lia) Hv) as [Hle _]. split; lia.
    + destruct (hexdigit_of_ascii c) as [h|]; [|done].
      destruct s as [|c' s]; [done|]. simpl in Hlen.
      destruct (hexdigit_of_ascii c') as [h'|] eqn:Hc'; [|done].
      destruct (fromhex s) as [v'|] eqn:Hv'; [|done]. intros [= <-].
      destruct (IH s v' ltac:(lia) Hv') as [Hle Heq].
      simpl. split; [lia|]. intros Hfull. by rewrite Hc', Heq by lia.
Qed.

(** On a well-formed identifier the constructor makes its twelve bytes. *)
Lemma bson_ObjectId_proper s oid :
  ObjectId_parse s = Some oid → bson_ObjectId s = Some oid.
Proof.
  unfold ObjectId_parse, bson_ObjectId.
  destruct (Nat.eqb_spec (String.length s) 24) as [Hlen|]; [|done].
  by apply (fromhex_hexdigits 12).
Qed.

Lemma twelve_bytes_proper s oid :
  ObjectId_parse s = Some oid → twelve_bytes oid = true.
Proof. intros H%ObjectId_parse_wf. unfold twelve_bytes. by rewrite H. Qed.

(** On any other string it raises, or makes a value of fewer bytes. *)
Lemma bson_ObjectId_improper s v :
  ObjectId_parse s = None → bson_ObjectId s = Some v → twelve_bytes v = false.
Proof.
  unfold ObjectId_parse, bson_ObjectId, twelve_bytes.
  destruct (Nat.eqb_spec (String.length s) 24) as [Hlen|]; [|done].
  intros Hnone Hv.
  destruct (fromhex_length 24 s v ltac:(lia) Hv) as [_ Heq].
  destruct (Nat.eqb_spec (length v) 24) as [Hv24|]; [|done].
  rewrite Heq in Hnone by lia. done.
Qed.

Ltac proper Hp :=
  rewrite ?(bson_ObjectId_proper _ _ Hp); simpl;
  unfold find_by_id, update_by_id, delete_by_id;
  rewrite ?(twelve_bytes_proper _ _ Hp); simpl.

(** ** Collections *)

Section CollectionFacts.
Context {D : Type}.
Implicit Types (c : collection D) (oid k : ObjectId) (d : D).

Lemma find_one_update_one k u oid c :
  find_one oid (update_one k u c)
  = if decide (k = oid) then u <$> find_one oid c else find_one oid c.
Proof.
  induction c as [|[k' d] c IH]; simpl.
  - by case_decide.
  - destruct (decide (k' = k)) as [->|Hne]; simpl.
    + destruct (decide (k = oid)) as [->|]; simpl; by repeat case_decide.
    + destruct (decide (k' = oid)) as [->|]; simpl.
      * by rewrite decide_False by done.
      * apply IH.
Qed.

Lemma find_one_app_fresh oid d c :
  find_one oid c = None → find_one oid (c ++ [(oid, d)]) = Some d.
Proof.
  induction c as [|[k d'] c IH]; simpl.
  - intros _. by rewrite decide_True.
  - case_decide; [done|]. apply IH.
Qed.

Lemma delete_one_count oid c :
  (delete_one oid c).2 = match find_one oid c with Some _ => 1 | None => 0 end.
Proof.
  induction c as [|[k d] c IH]; simpl; [done|].
  case_decide; [done|]. destruct (delete_one oid c). simpl in *. done.
Qed.

Lemma cursor_limit_sublist n (c : list (ObjectId * D)) :
  cursor_limit n c `sublist_of` c.
Proof.
  unfold cursor_limit. destruct (n =? 0); [done|]. apply sublist_take.
Qed.

Lemma cursor_limit_all n (c : list (ObjectId * D)) :
  n = 0 ∨ Z.of_nat (length c) <= Z.abs n → cursor_limit n c = c.
Proof.
  unfold cursor_limit. intros [->|Hlen]; [done|].
  destruct (n =? 0); [done|]. apply take_ge. lia.
Qed.
End CollectionFacts.

(** ** Single-product retrieval *)

(** Whatever the body of [get_product] raises, the 404 included, leaves the
    handler as the 400 of its [except Exception] clause. *)
Lemma get_product_raises pid st e :
  (get_product pid (Some st)).1 = inl e
  → e = HTTPException 400 "Invalid product id".
Proof.
  unfold get_product, with_db, try_except, ObjectId_, coll_find_one, mbind,
    M_bind, mret, M_ret, raise.
  destruct (bson_ObjectId pid) as [oid|]; simpl.
  - destruct (find_by_id oid (product_coll st)); simpl; congruence.
  - congruence.
Qed.

Lemma get_product_absent pid oid st :
  ObjectId_parse pid = Some oid
  → find_one oid (product_coll st) = None
  → get_product pid (Some st)
    = (inl (HTTPException 400 "Invalid product id"), Some st).
Proof.
  intros Hp Hf.
  unfold get_product, with_db, try_except, ObjectId_, coll_find_one, mbind,
    M_bind, mret, M_ret, raise.
  proper Hp. by rewrite Hf.
Qed.

Lemma get_product_malformed pid st :
  ObjectId_parse pid = None
  → get_product pid (Some st)
    = (inl (HTTPException 400 "Invalid product id"), Some st).
Proof.
  intros Hp.
  unfold get_product, with_db, try_except, ObjectId_, coll_find_one, mbind,
    M_bind, mret, M_ret, raise.
  destruct (bson_ObjectId pid) as [v|] eqn:Hv; simpl; [|done].
  unfold find_by_id. by rewrite (bson_ObjectId_improper _ _ Hp Hv).
Qed.

Lemma get_product_found pid oid d st :
  ObjectId_parse pid = Some oid
  → find_one oid (product_coll st) = Some d
  → get_product pid (Some st) = (inr (ProductOut_of oid d), Some st).
Proof.
  intros Hp Hf.
  unfold get_product, with_db, try_except, ObjectId_, coll_find_one, mbind,
    M_bind, mret, M_ret, raise.
  proper Hp. by rewrite Hf.
Qed.

(** C3 (the code departs from it).  Single-product retrieval is to answer
    404 for a well-formed identifier that no product has and 400 for a
    malformed one.  On an empty catalogue the handler answers the
    well-formed identifier [000000000000000000000000] with the same
    400 "Invalid product id" as the malformed [not-an-id]: the 404 raised in
    the [try] block is caught by its [except Exception] clause. *)
Theorem get_product_absent_id_answers_400 :
  let db := Some {| product_coll := []; order_coll := [] |} in
  ObjectId_parse "000000000000000000000000" = Some (replicate 24 H0)
  ∧ get_product "000000000000000000000000" db
    = (inl (HTTPException 400 "Invalid product id"), db)
  ∧ ObjectId_parse "not-an-id" = None
  ∧ get_product "not-an-id" db
    = (inl (HTTPException 400 "Invalid product id"), db).
Proof. repeat split. Qed.

(** ** Update and delete *)

Lemma bson_ObjectId_rejects s : bson_ObjectId s = None → ObjectId_parse s = None.
Proof.
  intros Hb. destruct (ObjectId_parse s) as [oid|] eqn:Hp; [|done].
  by rewrite (bson_ObjectId_proper _ _ Hp) in Hb.
Qed.

Lemma update_product_malformed now pid payload st :
  bson_ObjectId pid = None
  → update_product now pid payload (Some st) = (inl (InvalidId pid), Some st).
Proof.
  intros Hp. unfold update_product, with_db, ObjectId_, mbind, M_bind, raise.
  by rewrite Hp.
Qed.

Lemma delete_product_malformed pid st :
  bson_ObjectId pid = None
  → delete_product pid (Some st) = (inl (InvalidId pid), Some st).
Proof.
  intros Hp. unfold delete_product, with_db, ObjectId_, mbind, M_bind, raise.
  by rewrite Hp.
Qed.

Lemma find_by_id_update_by_id {D} v (u : D → D) (c : collection D) :
  find_by_id v (update_by_id v u c) = u <$> find_by_id v c.
Proof.
  unfold find_by_id, update_by_id. destruct (twelve_bytes v); [|done].
  by rewrite find_one_update_one, decide_True.
Qed.

Lemma delete_by_id_count {D} v (c : collection D) :
  (delete_by_id v c).2
  = match find_by_id v c with Some _ => 1 | None => 0 end.
Proof.
  unfold find_by_id, delete_by_id. destruct (twelve_bytes v); [|done].
  apply delete_one_count.
Qed.

Lemma update_product_404 now pid payload db :
  status_of (update_product now pid payload db).1 = 404
  ↔ unmatched pid db ∧ bson_encode_Product payload = None.
Proof.
  unfold unmatched, update_product, with_db, ObjectId_,
    coll_find_one_and_update, coll_update_one, coll_find_one, modify_store,
    mbind, M_bind, mret, M_ret, raise.
  destruct db as [st|]; simpl.
  2:{ split; [done|]. by intros [(? & ? & ? & _) _]. }
  destruct (bson_ObjectId pid) as [v|] eqn:Hp; simpl.
  2:{ split; [done|]. by intros [(? & ? & _ & ? & _) _]. }
  destruct (bson_encode_Product payload) as [e|] eqn:He; simpl.
  { split; [|by intros [_ ?]].
    unfold bson_encode_Product in He.
    destruct (negb _); [by simplify_eq|].
    destruct (existsb _ _); by simplify_eq. }
  rewrite find_by_id_update_by_id.
  destruct (find_by_id v (product_coll st)) eqn:Hf; simpl.
  - split; [done|].
    intros [(st' & v' & [= <-] & [= <-] & Hf') _]. congruence.
  - split; [|done]. intros _. split; [|done]. by exists st, v.
Qed.

Lemma delete_product_404 pid db :
  status_of (delete_product pid db).1 = 404 ↔ unmatched pid db.
Proof.
  unfold unmatched, delete_product, with_db, ObjectId_, coll_delete_one,
    mbind, M_bind, mret, M_ret, raise.
  destruct db as [st|]; simpl.
  2:{ split; [done|]. by intros (? & ? & ? & _). }
  destruct (bson_ObjectId pid) as [v|] eqn:Hp; simpl.
  2:{ split; [done|]. by intros (? & ? & _ & ? & _). }
  pose proof (delete_by_id_count v (product_coll st)) as Hc.
  destruct (delete_by_id v (product_coll st)) as [c n]. simpl in *. subst n.
  destruct (find_by_id v (product_coll st)) eqn:Hf; simpl.
  - split; [done|]. intros (st' & v' & [= <-] & [= <-] & Hf'). congruence.
  - split; [|done]. intros _. by exists st, v.
Qed.

(** C10, as amended.  On an identifier that [ObjectId] rejects (anything
    but 24 characters that read as pairs of hex digits, ASCII whitespace in
    front of a pair being skipped), update and delete end in a server error
    (status 500) and never in the 400 that retrieval gives the same
    identifier: with a store configured, the identifier-parse exception
    [InvalidId] leaves the handler unhandled and the store is untouched.
    Their 404 is the answer exactly for an identifier that [ObjectId]
    accepts and that matches no record (for update, with a payload that the
    driver can encode); every well-formed identifier is one that [ObjectId]
    accepts. *)
Theorem update_delete_malformed_id now payload db pid :
  (bson_ObjectId pid = None →
     ObjectId_parse pid = None
     ∧ status_of (update_product now pid payload db).1 = 500
     ∧ status_of (delete_product pid db).1 = 500
     ∧ ∀ st, db = Some st →
         update_product now pid payload db = (inl (InvalidId pid), db)
         ∧ delete_product pid db = (inl (InvalidId pid), db)
         ∧ status_of (get_product pid db).1 = 400)
  ∧ (status_of (update_product now pid payload db).1 = 404
     ↔ unmatched pid db ∧ bson_encode_Product payload = None)
  ∧ (status_of (delete_product pid db).1 = 404 ↔ unmatched pid db)
  ∧ (∀ oid, ObjectId_parse pid = Some oid → bson_ObjectId pid = Some oid).
Proof.
  split; [|split; [apply update_product_404|
                   split; [apply delete_product_404|]]].
  2:{ intros oid. apply bson_ObjectId_proper. }
  intros Hp. split; [by apply bson_ObjectId_rejects|]. destruct db as [st|].
  - rewrite update_product_malformed, delete_product_malformed,
      get_product_malformed by auto using bson_ObjectId_rejects.
    split; [done|]. split; [done|]. by intros st' _.
  - split; [done|]. split; [done|]. by intros st' [=].
Qed.

Lemma update_delete_malformed_id_witness :
  let p := mkProduct "Alloy Wheel" None 5000%float "Accessories"
             (Some "Arihant") [] 10 ∅ false in
  let db := Some {| product_coll := [(replicate 24 H1, mkProductDoc p None None)];
                    order_coll := [] |} in
  bson_ObjectId "not-an-id" = None
  ∧ update_product 0 "not-an-id" p db = (inl (InvalidId "not-an-id"), db)
  ∧ delete_product "not-an-id" db = (inl (InvalidId "not-an-id"), db)
  ∧ status_of (get_product "not-an-id" db).1 = 400.
Proof.
  intros p db. split; [reflexivity|].
  destruct (update_delete_malformed_id 0 p db "not-an-id") as [H _].
  destruct (H eq_refl) as (_ & _ & _ & Hst).
  exact (Hst _ eq_refl).
Defined.

(** C10 as first stated does not hold: the string
    "11 11 11 11 11 11 11 11 " is not a well-formed identifier, yet
    [ObjectId] accepts it, skipping the whitespace, and makes a value of
    eight bytes that matches no record: update and delete answer it with
    their 404 and not with a server error. *)
Lemma update_delete_whitespace_id_counterexample :
  ¬ (∀ pid now payload st,
       ObjectId_parse pid = None
       → status_of (update_product now pid payload (Some st)).1 = 500
         ∧ status_of (delete_product pid (Some st)).1 = 500).
Proof.
  intros Hclaim.
  destruct (Hclaim "11 11 11 11 11 11 11 11 " 0 example_wheel example_store
              eq_refl) as [Hupdate _].
  vm_compute in Hupdate. done.
Qed.

(** ** The admin gate *)

Lemma require_admin_resolved admin_key h :
  require_admin admin_key (HeaderValue h)
  = match truthy admin_key with
    | None => inr true
    | Some k => if decide (h = Some k) then inr true
                else inl (HTTPException 401 "Invalid admin key")
    end.
Proof.
  unfold require_admin. destruct (truthy admin_key) as [k|]; [|done].
  destruct (decide (h = Some k)) as [->|Hne]; simpl.
  - by rewrite String.eqb_refl.
  - destruct h as [s|]; simpl; [|done].
    destruct (String.eqb_spec s k) as [->|]; simpl; done.
Qed.

Lemma import_main_configured k :
  k ≠ "" → import_main (Some k) = inl (HTTPException 401 "Invalid admin key").
Proof.
  intros Hk. unfold import_main, require_admin, truthy.
  by rewrite decide_False.
Qed.

Lemma dispatch_ignores_header app w h h' e db :
  dispatch app w (mkRequest h e) db = dispatch app w (mkRequest h' e) db.
Proof. reflexivity. Qed.

(** C4 (the code departs from it).  With a secret configured, a request to
    a gated operation whose header is absent or wrong is to fail as
    unauthorized.  The handlers are declared with [_=require_admin()], which
    runs the check once, while the module is imported, on the placeholder
    default of its header parameter: with [ADMIN_API_KEY=s3cret] the import
    itself raises the 401 and no request is served, whatever its header
    (the right one included); and in an application that did load, the
    answer to a request does not depend on its header. *)
Theorem admin_gate_runs_at_import :
  (∀ w h e db,
     serve (Some "s3cret") w (mkRequest h e) db
     = inl (HTTPException 401 "Invalid admin key"))
  ∧ (∀ app w h h' e db,
       dispatch app w (mkRequest h e) db = dispatch app w (mkRequest h' e) db)
  ∧ (∀ w h e db,
       serve None w (mkRequest h e) db
       = inr (dispatch (mkApp true true true true) w (mkRequest h e) db))
  ∧ require_admin (Some "s3cret") (HeaderValue None)
    = inl (HTTPException 401 "Invalid admin key")
  ∧ require_admin (Some "s3cret") (HeaderValue (Some "s3cret")) = inr true.
Proof. repeat split. Qed.

(** ** Order creation *)

Lemma passes_or_fails st item :
  passes_validation st item ∨ fails_validation st item.
Proof.
  unfold passes_validation, fails_validation.
  destruct (ObjectId_parse (product_id item)) as [oid|]; [|by right; left].
  destruct (find_one oid (product_coll st)) as [d|] eqn:Hf.
  - destruct (Z_lt_le_dec (stock (doc_product d)) (quantity item)).
    + right; right; right. by exists oid, d.
    + left. by exists oid, d.
  - right; right; left. by exists oid.
Qed.

Lemma validate_item_passes item st :
  passes_validation st item → validate_item item st = (inr tt, st).
Proof.
  intros (oid & d & Hp & Hf & Hq). run_M. proper Hp. rewrite Hf.
  destruct (Z.ltb_spec (stock (doc_product d)) (quantity item)); [lia|done].
Qed.

Lemma validate_item_fails item st :
  fails_validation st item
  → ∃ detail, validate_item item st = (inl (HTTPException 400 detail), st).
Proof.
  intros [Hp|[(oid & Hp & Hf)|(oid & d & Hp & Hf & Hq)]];
    run_M; [|proper Hp..].
  - destruct (bson_ObjectId (product_id item)) as [v|] eqn:Hv; simpl;
      [|by eexists].
    unfold find_by_id. rewrite (bson_ObjectId_improper _ _ Hp Hv).
    by eexists.
  - rewrite Hf. by eexists.
  - rewrite Hf.
    destruct (Z.ltb_spec (stock (doc_product d)) (quantity item)); [|lia].
    by eexists.
Qed.

(** The validation loop reads the store and never writes it. *)
Lemma validation_passes its st :
  Forall (passes_validation st) its
  → for_each its validate_item st = (inr tt, st).
Proof.
  induction 1 as [|item its Hi _ IH]; [done|].
  simpl. unfold mbind, M_bind. by rewrite (validate_item_passes _ _ Hi).
Qed.

Lemma validation_fails its st :
  Exists (fails_validation st) its
  → ∃ detail,
      for_each its validate_item st = (inl (HTTPException 400 detail), st).
Proof.
  induction its as [|item its IH]; intros Hex; [by inversion Hex|].
  simpl. unfold mbind, M_bind.
  destruct (passes_or_fails st item) as [Hi|Hi].
  - rewrite (validate_item_passes _ _ Hi). apply IH.
    inversion Hex as [?? Hf|]; subst; [|done].
    destruct Hi as (oid & d & Hp & Hd & Hq).
    destruct Hf as [?|[(? & ? & ?)|(? & ? & ? & ? & ?)]]; simplify_eq; lia.
  - destruct (validate_item_fails _ _ Hi) as [detail ->]. by exists detail.
Qed.

Lemma inc_stock_inc_stock a b d :
  inc_stock a (inc_stock b d) = inc_stock (b + a) d.
Proof. unfold inc_stock. simpl. do 2 f_equal. lia. Qed.

Lemma inc_stock_0 d : inc_stock 0 d = d.
Proof.
  destruct d as [[] ? ?]. unfold inc_stock. simpl. do 2 f_equal. lia.
Qed.

(** The deduction loop: one [$inc] per line item, so a product's stock
    goes down by everything the order asks of it. *)
Lemma deduction its st :
  Forall (λ item, is_Some (ObjectId_parse (product_id item))) its
  → ∃ st', for_each its deduct_item st = (inr tt, st')
           ∧ order_coll st' = order_coll st
           ∧ ∀ oid, find_one oid (product_coll st')
                    = inc_stock (- ordered_quantity oid its)
                        <$> find_one oid (product_coll st).
Proof.
  intros Hall. revert st.
  induction Hall as [|item its [k Hp] _ IH]; intros st.
  - exists st. repeat split; [done..|]. intros oid. simpl.
    destruct (find_one oid (product_coll st)); simpl; [|done].
    by rewrite inc_stock_0.
  - simpl. run_M. proper Hp.
    destruct (IH (write product
                    (update_one k (inc_stock (- quantity item))
                       (product_coll st)) st))
      as (st' & Hrun & Hord & Hprod).
    exists st'. split; [exact Hrun|]. split; [exact Hord|].
    intros oid. rewrite Hprod. simpl. rewrite find_one_update_one.
    destruct (decide (k = oid)) as [->|Hne].
    + rewrite decide_True by done.
      destruct (find_one oid (product_coll st)); simpl; [|done].
      rewrite inc_stock_inc_stock. do 2 f_equal. lia.
    + rewrite decide_False by congruence.
      by replace (0 + ordered_quantity oid its) with (ordered_quantity oid its) by lia.
Qed.

(** An order whose items all pass validation goes through: stock is
    deducted item by item and the order document is appended. *)
Lemma create_order_succeeds new_id stamp o st :
  Forall (passes_validation st) (items o)
  → find_one new_id (order_coll st) = None
  → ∃ st',
      create_order new_id stamp o (Some st)
      = (inr (ObjectId_str new_id), Some st')
      ∧ order_coll st'
        = order_coll st ++ [(new_id, {| doc_order := o;
                                        order_created_at := stamp |})]
      ∧ ∀ oid, find_one oid (product_coll st')
               = inc_stock (- ordered_quantity oid (items o))
                   <$> find_one oid (product_coll st).
Proof.
  intros Hall Hfresh.
  destruct (deduction (items o) st) as (st1 & Hrun & Hord & Hprod).
  { eapply Forall_impl; [exact Hall|]. intros item (oid & d & -> & _). eauto. }
  unfold create_order, with_db. unfold mbind at 1 2, M_bind at 1 2.
  rewrite (validation_passes _ _ Hall), Hrun.
  run_M. unfold insert_one. rewrite Hord, Hfresh. simpl.
  eexists. split; [reflexivity|]. simpl. split; [done | exact Hprod].
Qed.

(** C1.  If some line item of a submitted order fails validation (its
    product id is malformed, no product has it, or the product's stock is
    below the item's quantity), order creation fails as a whole with a 400
    and leaves the store exactly as it was: no stock is changed, that of
    the items before the failing one included, and no order is stored. *)
Theorem create_order_rejects_invalid_item new_id stamp o st :
  Exists (fails_validation st) (items o)
  → ∃ detail,
      create_order new_id stamp o (Some st)
      = (inl (HTTPException 400 detail), Some st).
Proof.
  intros Hex. destruct (validation_fails _ _ Hex) as [detail Hrun].
  exists detail. unfold create_order, with_db.
  unfold mbind at 1, M_bind at 1. by rewrite Hrun.
Qed.

Lemma create_order_rejects_invalid_item_witness :
  let o := Order_of_payload (example_payload [example_item 2; example_item 11]) in
  Exists (fails_validation example_store) (items o)
  ∧ ∃ detail,
      create_order example_order_id None o (Some example_store)
      = (inl (HTTPException 400 detail), Some example_store).
Proof.
  intros o.
  assert (Exists (fails_validation example_store) (items o)) as Hex.
  { apply Exists_cons_tl, Exists_cons_hd. right; right.
    exists example_wheel_id, (mkProductDoc example_wheel None None).
    split; [reflexivity|]. split; [reflexivity|]. simpl. lia. }
  split; [exact Hex|].
  exact (create_order_rejects_invalid_item example_order_id None o
           example_store Hex).
Defined.

Lemma ordered_quantity_unreferenced oid its :
  Some oid ∉ (λ item, ObjectId_parse (product_id item)) <$> its
  → ordered_quantity oid its = 0.
Proof.
  induction its as [|item its IH]; simpl; [done|].
  rewrite not_elem_of_cons. intros [Hne Hnin].
  rewrite decide_False by congruence. rewrite IH by done. lia.
Qed.

(** When no two items reference the same product, what the order asks of
    a product is the quantity of the one item that references it. *)
Lemma ordered_quantity_single oid item its :
  NoDup ((λ item, ObjectId_parse (product_id item)) <$> its)
  → item ∈ its
  → ObjectId_parse (product_id item) = Some oid
  → ordered_quantity oid its = quantity item.
Proof.
  induction its as [|item' its IH]; simpl; [by intros _ ?%elem_of_nil|].
  rewrite NoDup_cons. intros [Hnin Hnd] Hin Hp.
  apply elem_of_cons in Hin as [->|Hin].
  - rewrite decide_True by done.
    rewrite ordered_quantity_unreferenced; [lia|]. by rewrite <- Hp.
  - rewrite decide_False.
    + rewrite IH by done. lia.
    + intros Hp'. apply Hnin. rewrite Hp', <- Hp.
      apply list_elem_of_fmap. by exists item.
Qed.

(** C2, as amended.  If every line item of an order references an existing
    product whose stock is at least the item's quantity, order creation
    succeeds and returns the new identifier; each product's stored stock
    goes down by exactly the total quantity the order's items ask of it,
    which is the item's own quantity when no other item references the same
    product; and the order is appended to the order collection as submitted,
    with status "pending" when the caller gave none. *)
Theorem create_order_deducts_ordered_quantities new_id stamp b st :
  let o := Order_of_payload b in
  Forall (passes_validation st) (items o)
  → find_one new_id (order_coll st) = None
  → ∃ st',
      create_order new_id stamp o (Some st)
      = (inr (ObjectId_str new_id), Some st')
      ∧ (∀ oid, find_one oid (product_coll st')
                = inc_stock (- ordered_quantity oid (items o))
                    <$> find_one oid (product_coll st))
      ∧ (NoDup ((λ item, ObjectId_parse (product_id item)) <$> items o)
         → ∀ item oid d,
             item ∈ items o
             → ObjectId_parse (product_id item) = Some oid
             → find_one oid (product_coll st) = Some d
             → find_one oid (product_coll st')
               = Some (inc_stock (- quantity item) d))
      ∧ order_coll st'
        = order_coll st ++ [(new_id, {| doc_order := o;
                                        order_created_at := stamp |})]
      ∧ (payload_status b = None → status o = "pending").
Proof.
  intros o Hall Hfresh.
  destruct (create_order_succeeds new_id stamp o st Hall Hfresh)
    as (st' & Hrun & Hord & Hprod).
  exists st'. split; [exact Hrun|]. split; [exact Hprod|].
  split; [|split; [exact Hord|]].
  - intros Hnd item oid d Hin Hp Hf.
    by rewrite Hprod, Hf, (ordered_quantity_single oid item (items o)).
  - intros Hs. subst o. simpl. by rewrite Hs.
Qed.

Lemma example_item_passes q :
  q <= 10 → passes_validation example_store (example_item q).
Proof.
  intros Hq. exists example_wheel_id, (mkProductDoc example_wheel None None).
  split; [reflexivity|]. split; [reflexivity|]. exact Hq.
Qed.

Lemma create_order_deducts_ordered_quantities_witness :
  ∃ st',
    create_order example_order_id None
      (Order_of_payload (example_payload [example_item 2]))
      (Some example_store)
    = (inr "222222222222222222222222", Some st')
    ∧ (stock ∘ doc_product) <$> find_one example_wheel_id (product_coll st')
      = Some 8
    ∧ (status ∘ doc_order ∘ snd) <$> order_coll st' = ["pending"].
Proof.
  destruct (create_order_deducts_ordered_quantities example_order_id None
              (example_payload [example_item 2]) example_store)
    as (st' & Hrun & Hprod & _ & Hord & Hst).
  { repeat constructor. apply example_item_passes. lia. }
  { reflexivity. }
  exists st'. split; [exact Hrun|]. split.
  - rewrite Hprod. reflexivity.
  - rewrite Hord. reflexivity.
Defined.

(** C2 as first stated does not hold: with ten wheels in stock, an order of
    two line items for the same wheel, of 2 and of 3 units, passes
    validation item by item and is stored, and the stock that is left is 5;
    it has not gone down by exactly the ordered quantity of either item. *)
Lemma create_order_repeated_product_counterexample :
  let o := Order_of_payload (example_payload [example_item 2; example_item 3]) in
  Forall (passes_validation example_store) (items o)
  ∧ ¬ (∃ st',
         create_order example_order_id None o (Some example_store)
         = (inr (ObjectId_str example_order_id), Some st')
         ∧ ∀ item oid d d',
             item ∈ items o
             → ObjectId_parse (product_id item) = Some oid
             → find_one oid (product_coll example_store) = Some d
             → find_one oid (product_coll st') = Some d'
             → stock (doc_product d')
               = stock (doc_product d) - quantity item).
Proof.
  intros o. split.
  - repeat constructor; apply example_item_passes; lia.
  - intros (st' & Hrun & Hstock).
    injection Hrun as <-.
    specialize (Hstock (example_item 2) example_wheel_id
                  (mkProductDoc example_wheel None None)
                  (inc_stock (-5) (mkProductDoc example_wheel None None))).
    assert (10 - 5 = 10 - 2) as Habs; [|lia].
    apply Hstock; [|reflexivity..]. apply elem_of_cons. by left.
Qed.

(** C5.  Validation compares each line item with the stored stock on its
    own: when two items of one order reference the same product, each with
    a quantity within the stock but with a sum above it, the order is
    accepted and stored, both quantities are deducted, and the product is
    left with negative stock, in a single request. *)
Theorem create_order_same_product_twice new_id stamp o st i1 i2 oid d :
  items o = [i1; i2]
  → ObjectId_parse (product_id i1) = Some oid
  → ObjectId_parse (product_id i2) = Some oid
  → find_one oid (product_coll st) = Some d
  → quantity i1 <= stock (doc_product d)
  → quantity i2 <= stock (doc_product d)
  → stock (doc_product d) < quantity i1 + quantity i2
  → find_one new_id (order_coll st) = None
  → ∃ st' d',
      create_order new_id stamp o (Some st)
      = (inr (ObjectId_str new_id), Some st')
      ∧ find_one oid (product_coll st') = Some d'
      ∧ stock (doc_product d')
        = stock (doc_product d) - quantity i1 - quantity i2
      ∧ stock (doc_product d') < 0.
Proof.
  intros Hits Hp1 Hp2 Hf Hq1 Hq2 Hsum Hfresh.
  destruct (create_order_succeeds new_id stamp o st) as (st' & Hrun & _ & Hprod);
    [|done|].
  { rewrite Hits. repeat constructor; by exists oid, d. }
  exists st', (inc_stock (- (quantity i1 + quantity i2)) d).
  split; [exact Hrun|].
  assert (ordered_quantity oid (items o) = quantity i1 + quantity i2) as HQ.
  { rewrite Hits. simpl. rewrite !decide_True by done. lia. }
  rewrite Hprod, Hf, HQ. simpl. split; [done|]. lia.
Qed.

Lemma create_order_same_product_twice_witness :
  ∃ st' d',
    create_order example_order_id None
      (Order_of_payload (example_payload [example_item 6; example_item 7]))
      (Some example_store)
    = (inr "222222222222222222222222", Some st')
    ∧ find_one example_wheel_id (product_coll st') = Some d'
    ∧ stock (doc_product d') = -3.
Proof.
  destruct (create_order_same_product_twice example_order_id None
              (Order_of_payload
                 (example_payload [example_item 6; example_item 7]))
              example_store (example_item 6) (example_item 7)
              example_wheel_id (mkProductDoc example_wheel None None))
    as (st' & d' & Hrun & Hf & Hstock & _);
    [reflexivity | reflexivity | reflexivity | reflexivity
    | simpl; lia | simpl; lia | simpl; lia | reflexivity |].
  exists st', d'. split; [exact Hrun|]. split; [exact Hf|].
  rewrite Hstock. reflexivity.
Defined.

(** ** Create, then fetch *)

Lemma Product_of_out_of oid d : Product_of_out (ProductOut_of oid d) = doc_product d.
Proof. by destruct d as [[] ? ?]. Qed.

(** C6.  Creating a product and then fetching it by the identifier that
    creation returned yields a record with that identifier and with exactly
    the fields of the product submitted.  [new_id] is the twelve-byte
    identifier the driver generates, fresh in the collection. *)
Theorem create_product_then_get new_id stamp p st :
  wf_ObjectId new_id
  → find_one new_id (product_coll st) = None
  → ∃ db' out,
      create_product new_id stamp p (Some st) = (inr (ObjectId_str new_id), db')
      ∧ get_product (ObjectId_str new_id) db' = (inr out, db')
      ∧ id out = ObjectId_str new_id
      ∧ Product_of_out out = p.
Proof.
  intros Hwf Hfresh.
  set (d := {| doc_product := p; product_created_at := stamp;
               product_updated_at := stamp |}).
  exists (Some (write product (product_coll st ++ [(new_id, d)]) st)),
    (ProductOut_of new_id d).
  split; [|split; [|split]].
  - unfold create_product, with_store. run_M. unfold insert_one.
    by rewrite Hfresh.
  - apply get_product_found; [by apply ObjectId_parse_str|].
    simpl. by apply find_one_app_fresh.
  - done.
  - by rewrite Product_of_out_of.
Qed.

Lemma create_product_then_get_witness :
  ∃ db' out,
    create_product example_order_id None example_wheel (Some example_store)
    = (inr "222222222222222222222222", db')
    ∧ get_product "222222222222222222222222" db' = (inr out, db')
    ∧ Product_of_out out = example_wheel.
Proof.
  destruct (create_product_then_get example_order_id None example_wheel
              example_store)
    as (db' & out & Hc & Hg & _ & Hp); [reflexivity | reflexivity |].
  by exists db', out.
Defined.

(** ** Order listing *)

Lemma created_le_total a b : created_le a b = true ∨ created_le b a = true.
Proof.
  destruct a as [x|], b as [y|]; simpl; auto.
  destruct (Z.leb_spec x y), (Z.leb_spec y x); auto; lia.
Qed.

Lemma created_le_trans a b c :
  created_le a b = true → created_le b c = true → created_le a c = true.
Proof.
  destruct a as [x|], b as [y|], c as [z|]; simpl; try done.
  rewrite !Z.leb_le. lia.
Qed.

#[global] Instance newest_first_total : Total newest_first.
Proof. intros x y. unfold newest_first. apply created_le_total. Qed.

#[global] Instance newest_first_trans : Transitive newest_first.
Proof. intros x y z Hxy Hyz. unfold newest_first in *. eauto using created_le_trans. Qed.

Lemma StronglySorted_take {A} (R : relation A) n l :
  StronglySorted R l → StronglySorted R (take n l).
Proof.
  intros Hs. rewrite <- (take_drop n l) in Hs.
  by apply StronglySorted_app_1_l in Hs.
Qed.

Lemma StronglySorted_cursor_limit n (l : list (ObjectId * OrderDoc)) :
  StronglySorted newest_first l → StronglySorted newest_first (cursor_limit n l).
Proof.
  unfold cursor_limit. destruct (n =? 0); [done|]. apply StronglySorted_take.
Qed.

(** What [list_orders] returns: the stored orders, every one of them,
    arranged newest first, cut by the cursor's limit. *)
Lemma list_orders_sorted limit st :
  ∃ sorted,
    list_orders limit (Some st)
    = (inr ((λ d, OrderOut_of d.1 d.2)
              <$> cursor_limit (default 100 limit) sorted), Some st)
    ∧ sorted ≡ₚ order_coll st
    ∧ StronglySorted newest_first sorted.
Proof.
  exists (merge_sort newest_first (order_coll st)).
  split; [reflexivity|]. split.
  - apply merge_sort_Permutation.
  - apply (StronglySorted_merge_sort newest_first).
Qed.

(** C9, as amended.  The order listing returns the stored orders newest
    first (descending [created_at], orders without one last).  With a
    positive limit, 100 when the caller gives none, it returns the first
    [limit] of them; with limit 0 it returns them all. *)
Theorem list_orders_newest_first limit st :
  0 <= default 100 limit
  → ∃ sorted returned,
      list_orders limit (Some st)
      = (inr ((λ d, OrderOut_of d.1 d.2) <$> returned), Some st)
      ∧ sorted ≡ₚ order_coll st
      ∧ StronglySorted newest_first sorted
      ∧ StronglySorted newest_first returned
      ∧ returned
        = (if default 100 limit =? 0 then sorted
           else take (Z.to_nat (default 100 limit)) sorted)
      ∧ (0 < default 100 limit
         → Z.of_nat (length returned) <= default 100 limit)
      ∧ (limit = None → returned = take 100 sorted).
Proof.
  intros Hn.
  destruct (list_orders_sorted limit st) as (sorted & Hrun & Hperm & Hsorted).
  exists sorted, (cursor_limit (default 100 limit) sorted).
  split; [exact Hrun|]. split; [exact Hperm|]. split; [exact Hsorted|].
  split; [by apply StronglySorted_cursor_limit|].
  assert (Z.abs_nat (default 100 limit) = Z.to_nat (default 100 limit)) as Habs
    by lia.
  split; [|split].
  - unfold cursor_limit. by rewrite Habs.
  - intros Hpos. unfold cursor_limit.
    destruct (Z.eqb_spec (default 100 limit) 0); [lia|].
    rewrite length_take. lia.
  - by intros ->.
Qed.

Lemma list_orders_newest_first_witness :
  ∃ returned,
    list_orders (Some 1) (Some example_order_store)
    = (inr ((λ d, OrderOut_of d.1 d.2) <$> returned),
       Some example_order_store)
    ∧ Z.of_nat (length returned) <= 1.
Proof.
  destruct (list_orders_newest_first (Some 1) example_order_store)
    as (sorted & returned & Hrun & _ & _ & _ & _ & Hlen & _);
    [simpl; lia|].
  exists returned. split; [exact Hrun|]. apply Hlen. simpl. lia.
Defined.

(** C9 as first stated does not hold: a caller-supplied limit of 0 does
    not cut the listing down to no orders; the cursor reads 0 as "no
    limit", and the one stored order is returned. *)
Lemma list_orders_limit_zero_counterexample :
  ¬ (∀ limit db outs,
       (list_orders limit db).1 = inr outs
       → Z.of_nat (length outs) <= default 100 limit).
Proof.
  intros Hclaim.
  specialize (Hclaim (Some 0) (Some example_order_store) _ eq_refl).
  simpl in Hclaim. lia.
Qed.

(** ** Product listing *)

Lemma bool_decide_VStr a b : bool_decide (VStr a = VStr b) = bool_decide (a = b).
Proof. apply bool_decide_ext. split; congruence. Qed.

Lemma bool_decide_VBool a b : bool_decide (VBool a = VBool b) = bool_decide (a = b).
Proof. apply bool_decide_ext. split; congruence. Qed.

(** The filter document that [list_products] builds means what the
    specification says of the filters, unless the engine rejects the
    pattern. *)
Lemma compile_build_query eng q cat feat :
  match truthy q with
  | Some s =>
      match eng s "i" with
      | Some m =>
          ∃ holds, compile_query eng (build_query q cat feat) = Some holds
                   ∧ ∀ d, holds d = listing_spec (Some m) (truthy cat) feat d
      | None => compile_query eng (build_query q cat feat) = None
      end
  | None =>
      ∃ holds, compile_query eng (build_query q cat feat) = Some holds
               ∧ ∀ d, holds d = listing_spec None (truthy cat) feat d
  end.
Proof.
  unfold build_query, compile_query.
  destruct (truthy q) as [s|]; [destruct (eng s "i") as [m|] eqn:Hm|];
    destruct (truthy cat) as [c|]; destruct feat as [f|]; simpl;
    unfold compile_field, compile_cond; simpl; rewrite ?Hm; simpl; try done.
  all: eexists; split; [reflexivity|]; intros d.
  all: unfold listing_spec, text_holds, product_field; simpl.
  all: rewrite ?bool_decide_VStr, ?bool_decide_VBool.
  all: destruct (description (doc_product d)); simpl.
  all: by rewrite ?orb_false_r, ?andb_true_r, ?andb_assoc.
Qed.

Lemma list_products_spec eng q cat feat limit st :
  match truthy q with
  | Some s =>
      match eng s "i" with
      | Some m =>
          list_products eng q cat feat limit (Some st)
          = (inr ((λ d, ProductOut_of d.1 d.2)
                    <$> cursor_limit (default 100 limit)
                          (List.filter
                             (λ d, listing_spec (Some m) (truthy cat) feat d.2)
                             (product_coll st))), Some st)
      | None =>
          list_products eng q cat feat limit (Some st)
          = (inl (OperationFailure "Regular expression is invalid"), Some st)
      end
  | None =>
      list_products eng q cat feat limit (Some st)
      = (inr ((λ d, ProductOut_of d.1 d.2)
                <$> cursor_limit (default 100 limit)
                      (List.filter
                         (λ d, listing_spec None (truthy cat) feat d.2)
                         (product_coll st))), Some st)
  end.
Proof.
  pose proof (compile_build_query eng q cat feat) as Hq.
  unfold list_products, with_db, find_products.
  destruct (truthy q) as [s|]; [destruct (eng s "i") as [m|]|].
  - destruct Hq as (holds & -> & Hholds). run_M.
    do 4 f_equal. apply List.filter_ext. intros [oid d]. apply Hholds.
  - by rewrite Hq.
  - destruct Hq as (holds & -> & Hholds). run_M.
    do 4 f_equal. apply List.filter_ext. intros [oid d]. apply Hholds.
Qed.

Lemma elem_of_cursor_limit_filter {D} n (f : ObjectId * D → bool) c x :
  x ∈ cursor_limit n (List.filter f c) → x ∈ c ∧ f x = true.
Proof.
  intros Hin.
  eapply elem_of_sublist in Hin; [|apply cursor_limit_sublist].
  apply list_elem_of_In, List.filter_In in Hin as [Hin Hf].
  by apply list_elem_of_In in Hin.
Qed.

(** A listing with [featured=true] holds featured products only. *)
Lemma list_products_featured_only eng q cat limit db outs o :
  (list_products eng q cat (Some true) limit db).1 = inr outs
  → o ∈ outs → out_featured o = true.
Proof.
  destruct db as [st|]; [|done].
  pose proof (list_products_spec eng q cat (Some true) limit st) as Hspec.
  assert (∀ text,
            o ∈ (λ d, ProductOut_of d.1 d.2)
                  <$> cursor_limit (default 100 limit)
                        (List.filter
                           (λ d, listing_spec text (truthy cat) (Some true) d.2)
                           (product_coll st))
            → out_featured o = true) as Hfeat.
  { intros text (d & -> & Hin)%list_elem_of_fmap.
    apply elem_of_cursor_limit_filter in Hin as [_ Hd].
    unfold listing_spec in Hd. simpl in *.
    apply andb_prop in Hd as [_ Hd]. by apply bool_decide_eq_true in Hd. }
  destruct (truthy q) as [s|]; [destruct (eng s "i") as [m|]|];
    rewrite Hspec; simpl; intros [= <-]; apply Hfeat.
Qed.

Lemma filter_all {A} (f : A → bool) l :
  (∀ x, f x = true) → List.filter f l = l.
Proof.
  intros Hf. induction l as [|x l IH]; simpl; [done|]. by rewrite Hf, IH.
Qed.

Lemma filter_sublist {A} (f : A → bool) l : List.filter f l `sublist_of` l.
Proof.
  induction l as [|x l IH]; simpl; [done|]. destruct (f x); by constructor.
Qed.

(** C7.  The listing returns, up to its limit, the stored products that
    satisfy every filter the caller applied: the filters combine with AND
    and an omitted one imposes no constraint.  With [featured=true] only
    featured products are returned; with the featured filter omitted a
    product is kept or dropped as if the filter asked for the value it has,
    so products of both values are returned; with no filter at all the
    listing is the collection itself. *)
Theorem list_products_filters eng q cat feat limit st :
  match truthy q with
  | Some s =>
      match eng s "i" with
      | Some m =>
          list_products eng q cat feat limit (Some st)
          = (inr ((λ d, ProductOut_of d.1 d.2)
                    <$> cursor_limit (default 100 limit)
                          (List.filter
                             (λ d, listing_spec (Some m) (truthy cat) feat d.2)
                             (product_coll st))), Some st)
      | None =>
          list_products eng q cat feat limit (Some st)
          = (inl (OperationFailure "Regular expression is invalid"), Some st)
      end
  | None =>
      list_products eng q cat feat limit (Some st)
      = (inr ((λ d, ProductOut_of d.1 d.2)
                <$> cursor_limit (default 100 limit)
                      (List.filter
                         (λ d, listing_spec None (truthy cat) feat d.2)
                         (product_coll st))), Some st)
  end
  ∧ (∀ outs o,
       (list_products eng q cat (Some true) limit (Some st)).1 = inr outs
       → o ∈ outs → out_featured o = true)
  ∧ (∀ text d,
       listing_spec text (truthy cat) None d
       = listing_spec text (truthy cat) (Some (featured (doc_product d))) d)
  ∧ list_products eng None None None limit (Some st)
    = (inr ((λ d, ProductOut_of d.1 d.2)
              <$> cursor_limit (default 100 limit) (product_coll st)),
       Some st).
Proof.
  split; [apply list_products_spec|].
  split; [intros outs o; apply list_products_featured_only|].
  split.
  - intros text d. unfold listing_spec. simpl.
    by rewrite bool_decide_eq_true_2.
  - pose proof (list_products_spec eng None None None limit st) as Hspec.
    etrans; [exact Hspec|]. do 4 f_equal. by apply filter_all.
Qed.

Lemma list_products_filters_witness :
  ∃ outs,
    (list_products example_engine None None (Some true) None
       (Some example_catalogue)).1 = inr outs
    ∧ length outs = 1%nat
    ∧ ∀ o, o ∈ outs → out_featured o = true.
Proof.
  eexists. split; [reflexivity|]. split; [reflexivity|].
  intros o.
  destruct (list_products_filters example_engine None None None None
              example_catalogue) as (_ & Hfeat & _).
  apply Hfeat. reflexivity.
Defined.

(** ** Text search *)

Lemma lower_app a b : lower (a +:+ b) = lower a +:+ lower b.
Proof. induction a as [|c a IH]; simpl; [done|]. by rewrite IH. Qed.

Lemma prefix_app x b : String.prefix x (x +:+ b) = true.
Proof.
  induction x as [|c x IH]; simpl; [by destruct b|].
  by destruct (ascii_dec c c).
Qed.

Lemma contains_prefix q s : String.prefix q s = true → contains q s = true.
Proof. intros H. destruct s; cbn [contains]; by rewrite H. Qed.

Lemma contains_app a x b : contains x (a +:+ x +:+ b) = true.
Proof.
  induction a as [|c a IH].
  - change ("" +:+ x +:+ b) with (x +:+ b). apply contains_prefix, prefix_app.
  - change (String c a +:+ x +:+ b) with (String c (a +:+ x +:+ b)).
    cbn [contains]. rewrite IH. apply orb_true_r.
Qed.

(** The search does not see the case of letters, in the query or in the
    text. *)
Lemma ci_contains_lower q q' s s' :
  lower q = lower q' → lower s = lower s' → ci_contains q s = ci_contains q' s'.
Proof. unfold ci_contains. by intros -> ->. Qed.

Lemma occurs_ci_contains q s : occurs_ci q s → ci_contains q s = true.
Proof.
  intros (pre & w & post & -> & Hw). unfold ci_contains.
  rewrite !lower_app, Hw. apply contains_app.
Qed.

(** C8, as amended.  For a non-empty text query without regular-expression
    special characters and without NUL, whatever its other characters, the
    listing
    matches every stored product whose title or description contains the
    query up to the case of its letters (and which passes the other filters
    applied): such a product is among the matches that the limit then cuts,
    and it is returned whenever the limit does not cut them.  The engine is
    only assumed to search literal words case-insensitively when compiled
    with option [i]. *)
Theorem list_products_text_search eng q cat feat limit st :
  engine_literal_ci eng
  → q ≠ ""
  → literal_pattern q = true
  → ∃ matched,
      list_products eng (Some q) cat feat limit (Some st)
      = (inr ((λ d, ProductOut_of d.1 d.2)
                <$> cursor_limit (default 100 limit) matched), Some st)
      ∧ matched `sublist_of` product_coll st
      ∧ ∀ oid d,
          (oid, d) ∈ product_coll st
          → occurs_ci q (title (doc_product d))
            ∨ (∃ s, description (doc_product d) = Some s ∧ occurs_ci q s)
          → listing_spec None (truthy cat) feat d = true
          → (oid, d) ∈ matched
            ∧ (default 100 limit = 0
               ∨ Z.of_nat (length matched) <= Z.abs (default 100 limit)
               → ProductOut_of oid d
                 ∈ (λ d, ProductOut_of d.1 d.2)
                     <$> cursor_limit (default 100 limit) matched).
Proof.
  intros Heng Hq Hlit.
  destruct (Heng q Hlit) as (m & Hm & Hci).
  pose proof (list_products_spec eng (Some q) cat feat limit st) as Hspec.
  assert (truthy (Some q) = Some q) as Htq by (simpl; by rewrite decide_False).
  rewrite Htq, Hm in Hspec.
  eexists. split; [exact Hspec|]. split.
  { apply filter_sublist. }
  intros oid d Hin Hocc Hrest.
  assert ((oid, d) ∈ List.filter
            (λ d, listing_spec (Some m) (truthy cat) feat d.2)
            (product_coll st)) as Hmatched.
  { apply list_elem_of_In, List.filter_In. split; [by apply list_elem_of_In|].
    simpl. unfold listing_spec in *. simpl in *.
    apply andb_prop in Hrest as [Hcat Hfeat].
    rewrite Hfeat, andb_true_r. rewrite Hcat, andb_true_r.
    unfold text_holds.
    destruct Hocc as [Ht|(s & Hs & Hd)].
    - by rewrite (Hci _ (occurs_ci_contains _ _ Ht)).
    - rewrite Hs. simpl. rewrite (Hci _ (occurs_ci_contains _ _ Hd)).
      apply orb_true_r. }
  split; [exact Hmatched|].
  intros Hlimit. rewrite cursor_limit_all by done.
  apply list_elem_of_fmap. by exists (oid, d).
Qed.

Lemma example_engine_literal_ci : engine_literal_ci example_engine.
Proof.
  intros q Hlit. exists (ci_contains q). unfold example_engine.
  by rewrite Hlit.
Defined.

Lemma list_products_text_search_witness :
  ∃ matched,
    list_products example_engine (Some "wheel") None None None
      (Some example_catalogue)
    = (inr ((λ d, ProductOut_of d.1 d.2) <$> cursor_limit 100 matched),
       Some example_catalogue)
    ∧ ProductOut_of example_cover_id (mkProductDoc example_cover None None)
      ∈ (λ d, ProductOut_of d.1 d.2) <$> cursor_limit 100 matched.
Proof.
  destruct (list_products_text_search example_engine "wheel" None None None
              example_catalogue example_engine_literal_ci)
    as (matched & Hrun & Hsub & Hin); [done | reflexivity |].
  exists matched. split; [exact Hrun|].
  apply (Hin example_cover_id (mkProductDoc example_cover None None)).
  - apply list_elem_of_further, list_elem_of_here.
  - right. exists "Matches the ALLOY WHEEL trim". split; [reflexivity|].
    by exists "Matches the ALLOY ", "WHEEL", " trim".
  - reflexivity.
  - right. apply sublist_length in Hsub. simpl in *. lia.
Defined.

(** C8 as first stated does not hold for every non-empty query: the query
    is handed to the store as a regular expression.  The title
    "Seat Cover (sport)" contains the query "(", yet the listing does not
    return the product: the store refuses the pattern and the request
    fails. *)
Lemma list_products_pattern_counterexample :
  occurs_ci "(" (title example_cover)
  ∧ (example_cover_id, mkProductDoc example_cover None None)
    ∈ product_coll example_catalogue
  ∧ list_products example_engine (Some "(") None None None
      (Some example_catalogue)
    = (inl (OperationFailure "Regular expression is invalid"),
       Some example_catalogue).
Proof.
  split; [by exists "Seat Cover ", "(", "sport)"|].
  split; [apply list_elem_of_further, list_elem_of_here | reflexivity].
Qed.

(** * Further properties of the handlers *)

(** ** Collections under the unique index *)

Section CollectionInvariants.
Context {D : Type}.
Implicit Types (c : collection D) (oid k : ObjectId) (d : D).

Lemma find_one_None oid c : find_one oid c = None ↔ oid ∉ c.*1.
Proof.
  induction c as [|[k d] c IH]; simpl.
  - split; [intros _; apply not_elem_of_nil | done].
  - rewrite not_elem_of_cons. case_decide as Hk; subst.
    + split; [done | by intros [? _]].
    + rewrite IH. split; [by split | by intros [_ ?]].
Qed.

Lemma update_one_ids k u c : (update_one k u c).*1 = c.*1.
Proof.
  induction c as [|[k' d] c IH]; simpl; [done|].
  case_decide; simpl; [done|]. by f_equal.
Qed.

Lemma update_one_absent k u c : find_one k c = None → update_one k u c = c.
Proof.
  induction c as [|[k' d] c IH]; simpl; [done|].
  case_decide; [done|]. intros Hf. by rewrite IH.
Qed.

Lemma delete_one_absent oid c : find_one oid c = None → delete_one oid c = (c, 0).
Proof.
  induction c as [|[k d] c IH]; simpl; [done|].
  case_decide; [done|]. intros Hf. by rewrite IH.
Qed.

Lemma delete_one_other oid k c :
  k ≠ oid → find_one k (delete_one oid c).1 = find_one k c.
Proof.
  intros Hne. induction c as [|[k' d] c IH]; simpl; [done|].
  destruct (decide (k' = oid)) as [->|]; simpl.
  - by rewrite decide_False.
  - destruct (delete_one oid c) as [c' cnt]. simpl in *.
    case_decide; [done|]. apply IH.
Qed.

Lemma delete_one_gone oid c :
  unique_ids c → find_one oid (delete_one oid c).1 = None.
Proof.
  unfold unique_ids. induction c as [|[k d] c IH]; simpl; [done|].
  rewrite NoDup_cons. intros [Hnin Hnd].
  destruct (decide (k = oid)) as [->|]; simpl.
  - by apply find_one_None.
  - destruct (delete_one oid c) as [c' cnt]. simpl in *.
    rewrite decide_False by done. by apply IH.
Qed.

Lemma delete_one_length oid c d :
  find_one oid c = Some d → S (length (delete_one oid c).1) = length c.
Proof.
  induction c as [|[k d'] c IH]; simpl; [done|].
  case_decide; simpl; [done|]. intros Hf.
  destruct (delete_one oid c) as [c' cnt]. simpl in *. f_equal. by apply IH.
Qed.

End CollectionInvariants.

(** ** Single-product retrieval, again *)

Lemma get_product_readonly pid db : (get_product pid db).2 = db.
Proof.
  destruct db as [st|]; [|done].
  destruct (ObjectId_parse pid) as [oid|] eqn:Hp.
  - destruct (find_one oid (product_coll st)) as [d|] eqn:Hf.
    + by rewrite (get_product_found pid oid d st Hp Hf).
    + by rewrite (get_product_absent pid oid st Hp Hf).
  - by rewrite (get_product_malformed pid st Hp).
Qed.

Lemma get_product_ok pid db out :
  (get_product pid db).1 = inr out
  → ∃ st oid d, db = Some st
                ∧ ObjectId_parse pid = Some oid
                ∧ find_one oid (product_coll st) = Some d
                ∧ out = ProductOut_of oid d.
Proof.
  destruct db as [st|]; [|done].
  destruct (ObjectId_parse pid) as [oid|] eqn:Hp.
  - destruct (find_one oid (product_coll st)) as [d|] eqn:Hf.
    + rewrite (get_product_found pid oid d st Hp Hf). intros [= <-].
      by exists st, oid, d.
    + by rewrite (get_product_absent pid oid st Hp Hf).
  - by rewrite (get_product_malformed pid st Hp).
Qed.

(** X1.  Retrieval never writes the store and never answers 404: it answers
    200 exactly for a well-formed identifier under which a product is
    stored, with that product's fields, and 400 or 500 otherwise. *)
Theorem get_product_outcome pid db :
  (get_product pid db).2 = db
  ∧ (status_of (get_product pid db).1 =? 404) = false
  ∧ (status_of (get_product pid db).1 = 200
     ∨ status_of (get_product pid db).1 = 400
     ∨ status_of (get_product pid db).1 = 500)
  ∧ ∀ out,
      (get_product pid db).1 = inr out
      ↔ ∃ st oid d, db = Some st
                    ∧ ObjectId_parse pid = Some oid
                    ∧ find_one oid (product_coll st) = Some d
                    ∧ out = ProductOut_of oid d.
Proof.
  split; [apply get_product_readonly|].
  assert (status_of (get_product pid db).1 = 200
          ∨ status_of (get_product pid db).1 = 400
          ∨ status_of (get_product pid db).1 = 500) as Hstatus.
  { destruct db as [st|]; [|by right; right].
    destruct (get_product pid (Some st)).1 as [e|out] eqn:Hr; [|by left].
    apply get_product_raises in Hr as ->. by right; left. }
  split; [by destruct Hstatus as [->|[->| ->]]|].
  split; [exact Hstatus|].
  intros out. split; [apply get_product_ok|].
  intros (st & oid & d & -> & Hp & Hf & ->).
  by rewrite (get_product_found pid oid d st Hp Hf).
Qed.

Lemma hexdigit_of_lower_ascii c :
  hexdigit_of_ascii (lower_ascii c) = hexdigit_of_ascii c.
Proof. destruct c as [[] [] [] [] [] [] [] []]; vm_compute; done. Qed.

Lemma hexdigit_to_lower_ascii c h :
  hexdigit_of_ascii c = Some h → hexdigit_to_ascii h = lower_ascii c.
Proof.
  destruct c as [[] [] [] [] [] [] [] []]; vm_compute; intros Hc;
    simplify_eq; done.
Qed.

Lemma length_lower s : String.length (lower s) = String.length s.
Proof. induction s; simpl; congruence. Qed.

Lemma hexdigits_of_lower s : hexdigits_of_string (lower s) = hexdigits_of_string s.
Proof.
  induction s as [|c s IH]; simpl; [done|].
  by rewrite hexdigit_of_lower_ascii, IH.
Qed.

(** The parser does not see the case of the hex digits. *)
Lemma ObjectId_parse_lower s : ObjectId_parse (lower s) = ObjectId_parse s.
Proof. unfold ObjectId_parse. by rewrite length_lower, hexdigits_of_lower. Qed.

Lemma hexdigits_str_lower s o :
  hexdigits_of_string s = Some o → ObjectId_str o = lower s.
Proof.
  revert o. induction s as [|c s IH]; intros o; simpl.
  - by intros [= <-].
  - destruct (hexdigit_of_ascii c) as [h|] eqn:Hc; [|done].
    destruct (hexdigits_of_string s) as [o'|]; [|done].
    intros [= <-]. simpl.
    by rewrite (hexdigit_to_lower_ascii c h Hc), (IH o' eq_refl).
Qed.

(** Parsing a string and printing the identifier gives the string in lower
    case. *)
Lemma ObjectId_str_parse s o : ObjectId_parse s = Some o → ObjectId_str o = lower s.
Proof.
  unfold ObjectId_parse. destruct (Nat.eqb _ _); [|done].
  apply hexdigits_str_lower.
Qed.

Lemma is_space_lower_ascii c : is_space (lower_ascii c) = is_space c.
Proof. destruct c as [[] [] [] [] [] [] [] []]; vm_compute; done. Qed.

Lemma fromhex_lower n s :
  (String.length s ≤ n)%nat → fromhex (lower s) = fromhex s.
Proof.
  revert s. induction n as [|n IH]; intros s Hlen.
  - destruct s; [done | simpl in Hlen; lia].
  - destruct s as [|c s]; [done|]. simpl in Hlen. simpl.
    rewrite is_space_lower_ascii, hexdigit_of_lower_ascii.
    destruct (is_space c); [apply IH; lia|].
    destruct (hexdigit_of_ascii c); [|done].
    destruct s as [|c' s]; [done|]. simpl in Hlen. simpl.
    rewrite hexdigit_of_lower_ascii. by rewrite (IH s) by lia.
Qed.

(** The constructor does not see the case of the hex digits either. *)
Lemma bson_ObjectId_lower s : bson_ObjectId (lower s) = bson_ObjectId s.
Proof.
  unfold bson_ObjectId. rewrite length_lower.
  by rewrite (fromhex_lower (String.length s)).
Qed.

(** X2.  Retrieval reads the identifier without regard to the case of its
    hex digits, and the [id] of the answer is its lower-case form, whatever
    the caller sent. *)
Theorem get_product_id_case pid pid' db :
  lower pid = lower pid'
  → get_product pid db = get_product pid' db
    ∧ ∀ out, (get_product pid db).1 = inr out → id out = lower pid.
Proof.
  intros Hcase.
  assert (bson_ObjectId pid = bson_ObjectId pid') as Hparse.
  { by rewrite <- (bson_ObjectId_lower pid), Hcase, bson_ObjectId_lower. }
  split.
  - unfold get_product, with_db, try_except, ObjectId_, mbind, M_bind, raise.
    rewrite Hparse. destruct db; [|done].
    by destruct (bson_ObjectId pid').
  - intros out Hout.
    apply get_product_ok in Hout as (st & oid & d & _ & Hp & _ & ->).
    simpl. by apply ObjectId_str_parse.
Qed.

Lemma get_product_id_case_witness :
  let db := Some {| product_coll :=
                      [(replicate 20 H1 ++ [Ha; Hb; Hc; Hd],
                        mkProductDoc example_wheel None None)];
                    order_coll := [] |} in
  get_product "11111111111111111111AbCd" db
  = get_product "11111111111111111111abcd" db
  ∧ ∃ out, (get_product "11111111111111111111AbCd" db).1 = inr out
           ∧ id out = "11111111111111111111abcd".
Proof.
  intros db.
  destruct (get_product_id_case "11111111111111111111AbCd"
              "11111111111111111111abcd" db eq_refl) as [Heq Hid].
  split; [exact Heq|].
  eexists. split; [reflexivity|]. apply Hid. reflexivity.
Defined.

(** ** Update and delete, again *)

Lemma update_by_id_absent {D} v (u : D → D) (c : collection D) :
  find_by_id v c = None → update_by_id v u c = c.
Proof.
  unfold find_by_id, update_by_id. destruct (twelve_bytes v); [|done].
  apply update_one_absent.
Qed.

Lemma delete_by_id_absent {D} v (c : collection D) :
  find_by_id v c = None → delete_by_id v c = (c, 0).
Proof.
  unfold find_by_id, delete_by_id. destruct (twelve_bytes v); [|done].
  apply delete_one_absent.
Qed.

(** X3.  Updating a stored product with a payload that the driver can
    encode (a stock that fits eight bytes, no NUL in a specification key)
    replaces all its fields by the payload, stamps the modification time
    and keeps the creation time and the identifier; no other product and no
    order changes, and fetching the product afterwards returns the payload
    under the same identifier. *)
Theorem update_product_replaces now pid payload st oid d :
  ObjectId_parse pid = Some oid
  → find_one oid (product_coll st) = Some d
  → bson_encode_Product payload = None
  → let d' := {| doc_product := payload;
                 product_created_at := product_created_at d;
                 product_updated_at := Some now |} in
    ∃ st',
      update_product now pid payload (Some st)
      = (inr (ProductOut_of oid d'), Some st')
      ∧ find_one oid (product_coll st') = Some d'
      ∧ (∀ k, k ≠ oid
              → find_one k (product_coll st') = find_one k (product_coll st))
      ∧ (product_coll st').*1 = (product_coll st).*1
      ∧ order_coll st' = order_coll st
      ∧ get_product pid (Some st') = (inr (ProductOut_of oid d'), Some st')
      ∧ Product_of_out (ProductOut_of oid d') = payload.
Proof.
  intros Hp Hf He d'.
  set (u := λ d0, {| doc_product := payload;
                     product_created_at := product_created_at d0;
                     product_updated_at := Some now |}).
  assert (find_one oid (update_one oid u (product_coll st)) = Some d') as Hf'.
  { by rewrite find_one_update_one, decide_True, Hf. }
  exists (write product (update_one oid u (product_coll st)) st).
  split; [|split; [|split; [|split; [|split; [|split]]]]].
  - run_handler. proper Hp. rewrite He. simpl. fold u. by rewrite Hf'.
  - exact Hf'.
  - intros k Hk. simpl. by rewrite find_one_update_one, decide_False.
  - simpl. apply update_one_ids.
  - done.
  - by apply get_product_found.
  - by rewrite Product_of_out_of.
Qed.

Lemma update_product_replaces_witness :
  ∃ st',
    update_product 1700000000 "111111111111111111111111" example_cover
      (Some example_store)
    = (inr (ProductOut_of example_wheel_id
              (mkProductDoc example_cover None (Some 1700000000))), Some st')
    ∧ get_product "111111111111111111111111" (Some st')
      = (inr (ProductOut_of example_wheel_id
                (mkProductDoc example_cover None (Some 1700000000))),
         Some st').
Proof.
  destruct (update_product_replaces 1700000000 "111111111111111111111111"
              example_cover example_store example_wheel_id
              (mkProductDoc example_wheel None None) eq_refl eq_refl eq_refl)
    as (st' & Hrun & _ & _ & _ & _ & Hget & _).
  by exists st'.
Defined.

(** X4.  An update or a delete that ends in an error, whichever it is,
    leaves the store as it found it. *)
Theorem failed_update_delete_keep_store now pid payload db e :
  ((update_product now pid payload db).1 = inl e
   → (update_product now pid payload db).2 = db)
  ∧ ((delete_product pid db).1 = inl e → (delete_product pid db).2 = db).
Proof.
  destruct db as [st|]; [|done].
  run_handler. destruct (bson_ObjectId pid) as [v|]; simpl; [|done].
  split.
  - destruct (bson_encode_Product payload); simpl; [done|].
    rewrite find_by_id_update_by_id.
    destruct (find_by_id v (product_coll st)) eqn:Hf; simpl; [done|].
    intros _. rewrite update_by_id_absent by done. by destruct st.
  - pose proof (delete_by_id_count v (product_coll st)) as Hc.
    destruct (find_by_id v (product_coll st)) eqn:Hf.
    + destruct (delete_by_id v (product_coll st)) as [c cnt]. simpl in *.
      by subst cnt.
    + rewrite delete_by_id_absent by done. intros _. by destruct st.
Qed.

Lemma failed_update_delete_keep_store_witness :
  (update_product 5 "222222222222222222222222" example_cover
     (Some example_store)).2 = Some example_store
  ∧ (delete_product "222222222222222222222222" (Some example_store)).2
    = Some example_store.
Proof.
  destruct (failed_update_delete_keep_store 5 "222222222222222222222222"
              example_cover (Some example_store)
              (HTTPException 404 "Product not found")) as [Hu Hd].
  split; [by apply Hu | by apply Hd].
Defined.

(** X5.  Deleting a stored product removes exactly that product: under the
    unique index it can no longer be found, every other product is found as
    before, the orders are untouched, and a second delete of the same
    identifier answers 404. *)
Theorem delete_product_removes pid st oid d :
  ObjectId_parse pid = Some oid
  → find_one oid (product_coll st) = Some d
  → unique_ids (product_coll st)
  → ∃ st',
      delete_product pid (Some st) = (inr true, Some st')
      ∧ find_one oid (product_coll st') = None
      ∧ (∀ k, k ≠ oid
              → find_one k (product_coll st') = find_one k (product_coll st))
      ∧ S (length (product_coll st')) = length (product_coll st)
      ∧ order_coll st' = order_coll st
      ∧ delete_product pid (Some st')
        = (inl (HTTPException 404 "Product not found"), Some st').
Proof.
  intros Hp Hf Hnd.
  pose proof (delete_one_count oid (product_coll st)) as Hc.
  pose proof (delete_one_gone oid (product_coll st) Hnd) as Hgone.
  pose proof (λ k, delete_one_other oid k (product_coll st)) as Hother.
  pose proof (delete_one_length oid (product_coll st) d Hf) as Hlen.
  rewrite Hf in Hc.
  exists (write product (delete_one oid (product_coll st)).1 st).
  destruct (delete_one oid (product_coll st)) as [c cnt] eqn:Hdel.
  simpl in *. subst cnt.
  split; [|split; [|split; [|split; [|split]]]].
  - run_handler. proper Hp. by rewrite Hdel.
  - done.
  - intros k Hk. by apply Hother.
  - done.
  - done.
  - run_handler. proper Hp. by rewrite (delete_one_absent _ _ Hgone).
Qed.

Lemma delete_product_removes_witness :
  ∃ st',
    delete_product "111111111111111111111111" (Some example_catalogue)
    = (inr true, Some st')
    ∧ find_one example_wheel_id (product_coll st') = None
    ∧ length (product_coll st') = 1%nat.
Proof.
  destruct (delete_product_removes "111111111111111111111111"
              example_catalogue example_wheel_id
              (mkProductDoc example_wheel None None) eq_refl eq_refl)
    as (st' & Hrun & Hgone & _ & Hlen & _).
  { unfold unique_ids. compute_done. }
  exists st'. split; [exact Hrun|]. split; [exact Hgone|].
  simpl in Hlen. lia.
Defined.

(** ** Order creation, again *)

Lemma validate_item_absent item v st :
  bson_ObjectId (product_id item) = Some v
  → find_by_id v (product_coll st) = None
  → validate_item item st
    = (inl (HTTPException 400 ("Product not found: " +:+ product_id item)), st).
Proof. intros Hp Hf. run_M. rewrite Hp. simpl. by rewrite Hf. Qed.

Lemma validate_item_malformed item st :
  bson_ObjectId (product_id item) = None
  → validate_item item st
    = (inl (HTTPException 400 "Invalid product id in order"), st).
Proof. intros Hp. run_M. by rewrite Hp. Qed.

Lemma validate_item_insufficient item v d st :
  bson_ObjectId (product_id item) = Some v
  → find_by_id v (product_coll st) = Some d
  → stock (doc_product d) < quantity item
  → validate_item item st
    = (inl (HTTPException 400
              ("Insufficient stock for " +:+ title (doc_product d))), st).
Proof.
  intros Hp Hf Hq. run_M. rewrite Hp. simpl. rewrite Hf.
  by destruct (Z.ltb_spec (stock (doc_product d)) (quantity item)); [|lia].
Qed.

Lemma validation_stops_at pre item rest st e :
  Forall (passes_validation st) pre
  → validate_item item st = (inl e, st)
  → for_each (pre ++ item :: rest) validate_item st = (inl e, st).
Proof.
  intros Hpre Hitem. induction Hpre as [|x pre Hx _ IH]; simpl.
  - unfold mbind, M_bind. by rewrite Hitem.
  - unfold mbind, M_bind. rewrite (validate_item_passes _ _ Hx). apply IH.
Qed.

Lemma create_order_stops_at new_id stamp o st pre item rest e :
  items o = pre ++ item :: rest
  → Forall (passes_validation st) pre
  → validate_item item st = (inl e, st)
  → create_order new_id stamp o (Some st) = (inl e, Some st).
Proof.
  intros Hits Hpre Hitem. unfold create_order, with_db.
  unfold mbind at 1, M_bind at 1.
  by rewrite Hits, (validation_stops_at pre item rest st e Hpre Hitem).
Qed.

(** X6.  A rejected order carries the reason of its first failing line
    item only, whatever the items after it are: "Invalid product id in
    order" for a product id that [ObjectId] rejects, "Product not found: "
    and the id for an id that [ObjectId] accepts and no product has (a
    string of hex pairs with whitespace between them is one),
    "Insufficient stock for " and the product's title for a quantity above
    the stock. *)
Theorem create_order_first_failure new_id stamp o st pre item rest :
  items o = pre ++ item :: rest
  → Forall (passes_validation st) pre
  → (bson_ObjectId (product_id item) = None
     → create_order new_id stamp o (Some st)
       = (inl (HTTPException 400 "Invalid product id in order"), Some st))
    ∧ (∀ v,
         bson_ObjectId (product_id item) = Some v
         → find_by_id v (product_coll st) = None
         → create_order new_id stamp o (Some st)
           = (inl (HTTPException 400
                     ("Product not found: " +:+ product_id item)), Some st))
    ∧ (∀ v d,
         bson_ObjectId (product_id item) = Some v
         → find_by_id v (product_coll st) = Some d
         → stock (doc_product d) < quantity item
         → create_order new_id stamp o (Some st)
           = (inl (HTTPException 400
                     ("Insufficient stock for " +:+ title (doc_product d))),
              Some st)).
Proof.
  intros Hits Hpre. split; [|split].
  - intros Hp. eapply create_order_stops_at; [done..|].
    by apply validate_item_malformed.
  - intros oid Hp Hf. eapply create_order_stops_at; [done..|].
    by eapply validate_item_absent.
  - intros oid d Hp Hf Hq. eapply create_order_stops_at; [done..|].
    by eapply validate_item_insufficient.
Qed.

Lemma create_order_first_failure_witness :
  create_order example_order_id None
    (Order_of_payload
       (example_payload
          [example_item 2; example_item 11;
           mkOrderItem "not-an-id" "Ghost" 1%float 1 None]))
    (Some example_store)
  = (inl (HTTPException 400 "Insufficient stock for Alloy Wheel"),
     Some example_store).
Proof.
  destruct (create_order_first_failure example_order_id None
              (Order_of_payload
                 (example_payload
                    [example_item 2; example_item 11;
                     mkOrderItem "not-an-id" "Ghost" 1%float 1 None]))
              example_store [example_item 2] (example_item 11)
              [mkOrderItem "not-an-id" "Ghost" 1%float 1 None] eq_refl)
    as (_ & _ & Hstock).
  { repeat constructor. apply example_item_passes. lia. }
  apply (Hstock example_wheel_id (mkProductDoc example_wheel None None));
    [reflexivity | reflexivity | simpl; lia].
Defined.

Lemma validate_item_readonly item st : (validate_item item st).2 = st.
Proof.
  destruct (passes_or_fails st item) as [Hi|Hi].
  - by rewrite (validate_item_passes _ _ Hi).
  - by destruct (validate_item_fails _ _ Hi) as [detail ->].
Qed.

Lemma validation_readonly its st : (for_each its validate_item st).2 = st.
Proof.
  induction its as [|item its IH]; simpl; [done|].
  unfold mbind, M_bind.
  pose proof (validate_item_readonly item st) as Hro.
  destruct (validate_item item st) as [[e|[]] st1]; simpl in *; subst st1;
    [done | apply IH].
Qed.

Lemma same_but_stock_refl x : same_but_stock x x.
Proof. split; [done|]. exists 0. by rewrite inc_stock_0. Qed.

Lemma same_but_stock_trans x y z :
  same_but_stock x y → same_but_stock y z → same_but_stock x z.
Proof.
  intros [Hxy [n Hn]] [Hyz [m Hm]]. split; [congruence|].
  exists (n + m). by rewrite Hm, Hn, inc_stock_inc_stock.
Qed.

Lemma Forall2_same_but_stock_refl c : Forall2 same_but_stock c c.
Proof. induction c; constructor; [apply same_but_stock_refl | done]. Qed.

Lemma update_one_inc_stock k n c :
  Forall2 same_but_stock c (update_one k (inc_stock n) c).
Proof.
  induction c as [|[k' d] c IH]; simpl; [constructor|].
  case_decide; constructor; try done.
  - split; [done|]. by exists n.
  - apply Forall2_same_but_stock_refl.
  - apply same_but_stock_refl.
Qed.

Lemma Forall2_same_but_stock_trans c1 c2 c3 :
  Forall2 same_but_stock c1 c2 → Forall2 same_but_stock c2 c3
  → Forall2 same_but_stock c1 c3.
Proof.
  intros H12. revert c3. induction H12 as [|x y c1 c2 Hxy _ IH]; intros c3 H23.
  - by inversion H23.
  - inversion H23 as [|? z ? c3' Hyz H23']; subst.
    constructor; [by eapply same_but_stock_trans | by apply IH].
Qed.

(** The deduction loop, however far it gets, only changes stocks. *)
Lemma deduction_shape its st :
  Forall2 same_but_stock (product_coll st)
    (product_coll (for_each its deduct_item st).2)
  ∧ order_coll (for_each its deduct_item st).2 = order_coll st.
Proof.
  revert st. induction its as [|item its IH]; intros st; simpl.
  - split; [apply Forall2_same_but_stock_refl | done].
  - run_M. destruct (bson_ObjectId (product_id item)) as [k|]; simpl.
    + destruct (IH (write product
                      (update_by_id k (inc_stock (- quantity item))
                         (product_coll st)) st)) as [Hprod Hord].
      split; [|exact Hord].
      eapply Forall2_same_but_stock_trans; [|exact Hprod].
      simpl. unfold update_by_id.
      destruct (twelve_bytes k);
        [apply update_one_inc_stock | apply Forall2_same_but_stock_refl].
    + split; [apply Forall2_same_but_stock_refl | done].
Qed.

Lemma Forall2_same_but_stock_ids c c' :
  Forall2 same_but_stock c c' → c'.*1 = c.*1.
Proof.
  induction 1 as [|x y c c' [Hxy _] _ IH]; simpl; [done|]. by f_equal.
Qed.

Lemma create_order_shape new_id stamp o st r db' :
  create_order new_id stamp o (Some st) = (r, db')
  → ∃ st',
      db' = Some st'
      ∧ Forall2 same_but_stock (product_coll st) (product_coll st')
      ∧ match r with
        | inr _ =>
            find_one new_id (order_coll st) = None
            ∧ order_coll st'
              = order_coll st ++ [(new_id, {| doc_order := o;
                                              order_created_at := stamp |})]
        | inl _ => order_coll st' = order_coll st
        end.
Proof.
  unfold create_order, with_db. unfold mbind at 1, M_bind at 1.
  pose proof (validation_readonly (items o) st) as Hro.
  destruct (for_each (items o) validate_item st) as [[e|[]] s1];
    simpl in Hro; subst s1.
  { intros [= <- <-]. exists st.
    split; [done|]. split; [apply Forall2_same_but_stock_refl | done]. }
  unfold mbind at 1, M_bind at 1.
  destruct (deduction_shape (items o) st) as [Hprod Hord].
  destruct (for_each (items o) deduct_item st) as [[e|[]] s2]; simpl in *.
  { intros [= <- <-]. by exists s2. }
  run_M. unfold insert_one.
  destruct (find_one new_id (order_coll s2)) eqn:Hfresh; simpl;
    intros [= <- <-].
  - by exists s2.
  - eexists. split; [reflexivity|]. simpl. split; [done|].
    by rewrite <- Hord.
Qed.

(** X7.  Whatever it answers, order creation neither adds nor removes a
    product, keeps the products in their order and changes no field of a
    product other than its stock; it stores at most one order, the one
    submitted, and none when it answers with an error. *)
Theorem create_order_touches_only_stock new_id stamp o st :
  ∃ st',
    (create_order new_id stamp o (Some st)).2 = Some st'
    ∧ Forall2 same_but_stock (product_coll st) (product_coll st')
    ∧ (product_coll st').*1 = (product_coll st).*1
    ∧ match (create_order new_id stamp o (Some st)).1 with
      | inr _ =>
          order_coll st'
          = order_coll st ++ [(new_id, {| doc_order := o;
                                          order_created_at := stamp |})]
      | inl _ => order_coll st' = order_coll st
      end.
Proof.
  destruct (create_order new_id stamp o (Some st)) as [r db'] eqn:Hrun.
  destruct (create_order_shape _ _ _ _ _ _ Hrun) as (st' & -> & Hprod & Hord).
  exists st'. split; [done|]. split; [done|].
  split; [by apply Forall2_same_but_stock_ids|].
  simpl. destruct r; [done | by destruct Hord].
Qed.

(** X8.  The schema sets no minimum on the number of line items: an order
    without any is accepted and stored, and no product changes. *)
Theorem create_order_without_items new_id stamp o st :
  items o = []
  → find_one new_id (order_coll st) = None
  → create_order new_id stamp o (Some st)
    = (inr (ObjectId_str new_id),
       Some {| product_coll := product_coll st;
               order_coll :=
                 order_coll st ++ [(new_id, {| doc_order := o;
                                               order_created_at := stamp |})]
            |}).
Proof.
  intros Hits Hfresh. unfold create_order, with_db. rewrite Hits.
  run_M. unfold insert_one. by rewrite Hfresh.
Qed.

Lemma create_order_without_items_witness :
  create_order example_order_id None (Order_of_payload (example_payload []))
    (Some example_store)
  = (inr "222222222222222222222222",
     Some {| product_coll := product_coll example_store;
             order_coll :=
               [(example_order_id,
                 {| doc_order := Order_of_payload (example_payload []);
                    order_created_at := None |})] |}).
Proof.
  exact (create_order_without_items example_order_id None
           (Order_of_payload (example_payload [])) example_store
           eq_refl eq_refl).
Defined.

Lemma ordered_quantity_nonneg oid its :
  Forall valid_OrderItem its → 0 <= ordered_quantity oid its.
Proof.
  induction 1 as [|item its Hv _ IH]; simpl; [done|].
  unfold valid_OrderItem in Hv. case_decide; lia.
Qed.

Lemma ordered_quantity_positive oid its :
  Forall valid_OrderItem its
  → Some oid ∈ (λ item, ObjectId_parse (product_id item)) <$> its
  → 1 <= ordered_quantity oid its.
Proof.
  induction 1 as [|item its Hv Hvs IH]; simpl.
  - by intros ?%elem_of_nil.
  - pose proof (ordered_quantity_nonneg oid its Hvs).
    unfold valid_OrderItem in Hv.
    intros [Hhd|Htl]%elem_of_cons.
    + rewrite decide_True by done. lia.
    + specialize (IH Htl). case_decide; lia.
Qed.

(** X9.  With quantities of at least one, as the schema requires, an
    accepted order never raises a stock: every product it references ends
    with strictly less stock, and every other product is left exactly as it
    was. *)
Theorem create_order_lowers_stock new_id stamp o st :
  Forall valid_OrderItem (items o)
  → Forall (passes_validation st) (items o)
  → find_one new_id (order_coll st) = None
  → ∃ st',
      create_order new_id stamp o (Some st)
      = (inr (ObjectId_str new_id), Some st')
      ∧ ∀ oid d,
          find_one oid (product_coll st) = Some d
          → ∃ d', find_one oid (product_coll st') = Some d'
                  ∧ stock (doc_product d') <= stock (doc_product d)
                  ∧ (Some oid
                       ∈ (λ item, ObjectId_parse (product_id item)) <$> items o
                     → stock (doc_product d') < stock (doc_product d))
                  ∧ (Some oid
                       ∉ (λ item, ObjectId_parse (product_id item)) <$> items o
                     → d' = d).
Proof.
  intros Hvalid Hall Hfresh.
  destruct (create_order_succeeds new_id stamp o st Hall Hfresh)
    as (st' & Hrun & _ & Hprod).
  exists st'. split; [exact Hrun|]. intros oid d Hf.
  exists (inc_stock (- ordered_quantity oid (items o)) d).
  rewrite Hprod, Hf. split; [done|].
  pose proof (ordered_quantity_nonneg oid (items o) Hvalid).
  split; [simpl; lia|]. split.
  - intros Hin. pose proof (ordered_quantity_positive oid _ Hvalid Hin).
    simpl. lia.
  - intros Hnin. rewrite ordered_quantity_unreferenced by done.
    apply inc_stock_0.
Qed.

Lemma create_order_lowers_stock_witness :
  ∃ st' d',
    create_order example_order_id None
      (Order_of_payload (example_payload [example_item 2; example_item 3]))
      (Some example_catalogue)
    = (inr "222222222222222222222222", Some st')
    ∧ find_one example_wheel_id (product_coll st') = Some d'
    ∧ stock (doc_product d') < 10
    ∧ find_one example_cover_id (product_coll st')
      = Some (mkProductDoc example_cover None None).
Proof.
  destruct (create_order_lowers_stock example_order_id None
              (Order_of_payload
                 (example_payload [example_item 2; example_item 3]))
              example_catalogue)
    as (st' & Hrun & Hstock).
  { repeat constructor; unfold valid_OrderItem; simpl; lia. }
  { repeat constructor;
      exists example_wheel_id, (mkProductDoc example_wheel None None);
      (split; [reflexivity|]); (split; [reflexivity|]); simpl; lia. }
  { reflexivity. }
  destruct (Hstock example_wheel_id (mkProductDoc example_wheel None None)
              eq_refl) as (d' & Hf & _ & Hlt & _).
  destruct (Hstock example_cover_id (mkProductDoc example_cover None None)
              eq_refl) as (c' & Hc & _ & _ & Hsame).
  exists st', d'. split; [exact Hrun|]. split; [exact Hf|]. split.
  - apply Hlt. apply list_elem_of_here.
  - rewrite Hc. f_equal. apply Hsame. compute_done.
Defined.

(** X10.  After an accepted order, fetching a product shows its stock
    reduced by what the order asked of it, every other field as before. *)
Theorem create_order_then_get_product new_id stamp o st pid oid d :
  Forall (passes_validation st) (items o)
  → find_one new_id (order_coll st) = None
  → ObjectId_parse pid = Some oid
  → find_one oid (product_coll st) = Some d
  → ∃ db',
      create_order new_id stamp o (Some st) = (inr (ObjectId_str new_id), db')
      ∧ get_product pid db'
        = (inr (ProductOut_of oid
                  (inc_stock (- ordered_quantity oid (items o)) d)), db')
      ∧ out_stock (ProductOut_of oid
                     (inc_stock (- ordered_quantity oid (items o)) d))
        = stock (doc_product d) - ordered_quantity oid (items o).
Proof.
  intros Hall Hfresh Hp Hf.
  destruct (create_order_succeeds new_id stamp o st Hall Hfresh)
    as (st' & Hrun & _ & Hprod).
  exists (Some st'). split; [exact Hrun|]. split.
  - apply get_product_found; [done|]. by rewrite Hprod, Hf.
  - simpl. lia.
Qed.

Lemma create_order_then_get_product_witness :
  ∃ db' out,
    create_order example_order_id None
      (Order_of_payload (example_payload [example_item 2]))
      (Some example_store)
    = (inr "222222222222222222222222", db')
    ∧ get_product "111111111111111111111111" db' = (inr out, db')
    ∧ out_stock out = 8.
Proof.
  destruct (create_order_then_get_product example_order_id None
              (Order_of_payload (example_payload [example_item 2]))
              example_store "111111111111111111111111" example_wheel_id
              (mkProductDoc example_wheel None None))
    as (db' & Hrun & Hget & Hstock);
    [| reflexivity | reflexivity | reflexivity |].
  { repeat constructor. apply example_item_passes. lia. }
  eexists db', _. split; [exact Hrun|]. split; [exact Hget|].
  rewrite Hstock. reflexivity.
Defined.

(** ** Product listing, again *)

Lemma list_products_readonly eng q cat feat limit db :
  (list_products eng q cat feat limit db).2 = db.
Proof.
  destruct db as [st|]; [|done].
  pose proof (list_products_spec eng q cat feat limit st) as Hspec.
  destruct (truthy q) as [s|]; [destruct (eng s "i")|]; by rewrite Hspec.
Qed.

(** What a listing returns, when it returns: the image of the documents
    that pass the filters, in their stored order, cut by the limit. *)
Lemma list_products_returns eng q cat feat limit db outs :
  (list_products eng q cat feat limit db).1 = inr outs
  → ∃ st text,
      db = Some st
      ∧ outs = (λ d, ProductOut_of d.1 d.2)
                 <$> cursor_limit (default 100 limit)
                       (List.filter
                          (λ d, listing_spec text (truthy cat) feat d.2)
                          (product_coll st)).
Proof.
  destruct db as [st|]; [|done].
  pose proof (list_products_spec eng q cat feat limit st) as Hspec.
  destruct (truthy q) as [s|]; [destruct (eng s "i") as [m|]|];
    rewrite Hspec; simpl; intros [= <-].
  - by exists st, (Some m).
  - by exists st, None.
Qed.

Lemma length_cursor_limit {D} n (c : list (ObjectId * D)) :
  n ≠ 0 → Z.of_nat (length (cursor_limit n c)) <= Z.abs n.
Proof.
  intros Hn. unfold cursor_limit.
  destruct (Z.eqb_spec n 0); [done|]. rewrite length_take. lia.
Qed.

(** X12.  A listing never writes the store; what it returns are stored
    products, each at most once and in their stored order, and no more of
    them than the limit unless the limit is 0: at most 100 when the caller
    gives no limit. *)
Theorem list_products_shape eng q cat feat limit db :
  (list_products eng q cat feat limit db).2 = db
  ∧ ∀ outs,
      (list_products eng q cat feat limit db).1 = inr outs
      → ∃ st docs,
          db = Some st
          ∧ outs = (λ d, ProductOut_of d.1 d.2) <$> docs
          ∧ docs `sublist_of` product_coll st
          ∧ (default 100 limit ≠ 0
             → Z.of_nat (length outs) <= Z.abs (default 100 limit))
          ∧ (limit = None → (length outs ≤ 100)%nat).
Proof.
  split; [apply list_products_readonly|].
  intros outs (st & text & -> & ->)%list_products_returns.
  eexists st, _. split; [done|]. split; [reflexivity|]. split; [|split].
  - etrans; [apply cursor_limit_sublist | apply filter_sublist].
  - intros Hn. rewrite length_fmap. by apply length_cursor_limit.
  - intros ->. rewrite length_fmap. simpl.
    pose proof (length_cursor_limit 100
                  (List.filter
                     (λ d, listing_spec text (truthy cat) feat d.2)
                     (product_coll st))).
    lia.
Qed.

Lemma list_products_shape_witness :
  ∃ outs,
    (list_products example_engine None None None (Some 1)
       (Some example_catalogue)).1 = inr outs
    ∧ Z.of_nat (length outs) <= 1.
Proof.
  eexists. split; [reflexivity|].
  destruct (list_products_shape example_engine None None None (Some 1)
              (Some example_catalogue)) as [_ Hshape].
  destruct (Hshape _ eq_refl) as (st & docs & _ & Hout & _ & Hlen & _).
  apply Hlen. simpl. lia.
Defined.

(** X13.  The category and featured filters are exact matches: with a
    non-empty category every product returned has exactly that category,
    and with a featured flag, [false] as well as [true], every product
    returned has that flag. *)
Theorem list_products_exact_filters eng q cat feat limit db outs o :
  (list_products eng q cat feat limit db).1 = inr outs
  → o ∈ outs
  → (∀ c, cat = Some c → c ≠ "" → out_category o = c)
    ∧ (∀ f, feat = Some f → out_featured o = f).
Proof.
  intros (st & text & -> & ->)%list_products_returns
    (d & -> & Hin)%list_elem_of_fmap.
  apply elem_of_cursor_limit_filter in Hin as [_ Hd].
  unfold listing_spec in Hd.
  apply andb_prop in Hd as [Hd Hfeat]. apply andb_prop in Hd as [_ Hcat].
  split.
  - intros c -> Hc. simpl in Hcat. rewrite decide_False in Hcat by done.
    simpl in Hcat. by apply bool_decide_eq_true in Hcat.
  - intros f ->. simpl in Hfeat. by apply bool_decide_eq_true in Hfeat.
Qed.

Lemma list_products_exact_filters_witness :
  ∃ outs,
    (list_products example_engine None (Some "Accessories") (Some false) None
       (Some example_catalogue)).1 = inr outs
    ∧ length outs = 1%nat
    ∧ ∀ o, o ∈ outs → out_category o = "Accessories" ∧ out_featured o = false.
Proof.
  eexists. split; [reflexivity|]. split; [reflexivity|].
  intros o Hin.
  destruct (list_products_exact_filters example_engine None
              (Some "Accessories") (Some false) None
              (Some example_catalogue) _ o eq_refl Hin) as [Hc Hf].
  split; [by apply Hc | by apply Hf].
Defined.

(** An empty search text and an empty category are not applied. *)
Lemma list_products_empty_filters eng q cat feat limit db :
  list_products eng (Some "") cat feat limit db
  = list_products eng None cat feat limit db
  ∧ list_products eng q (Some "") feat limit db
    = list_products eng q None feat limit db.
Proof. done. Qed.

(** ** Order listing, again *)

(** X14.  The order listing never writes the store, and when the limit is
    0 or not below the number of stored orders it returns every stored
    order exactly once. *)
Theorem list_orders_complete limit st :
  (list_orders limit (Some st)).2 = Some st
  ∧ (default 100 limit = 0
     ∨ Z.of_nat (length (order_coll st)) <= default 100 limit
     → ∃ outs,
         (list_orders limit (Some st)).1 = inr outs
         ∧ outs ≡ₚ (λ d, OrderOut_of d.1 d.2) <$> order_coll st).
Proof.
  destruct (list_orders_sorted limit st) as (sorted & Hrun & Hperm & _).
  rewrite Hrun. split; [done|]. intros Hlimit.
  eexists. split; [reflexivity|].
  rewrite cursor_limit_all; [by rewrite Hperm|].
  rewrite Hperm. destruct Hlimit as [?|?]; [by left | right; lia].
Qed.

Lemma list_orders_complete_witness :
  ∃ outs,
    (list_orders None (Some example_order_store)).1 = inr outs
    ∧ outs ≡ₚ (λ d, OrderOut_of d.1 d.2) <$> order_coll example_order_store.
Proof.
  destruct (list_orders_complete None example_order_store) as [_ Hall].
  apply Hall. right. simpl. lia.
Defined.

(** ** The admin check as a function *)

(** X15.  [require_admin], given the header of a request, lets it pass
    exactly when no secret is configured (the variable unset or empty) or
    the header equals the secret, and raises the 401 otherwise; given
    nothing, as in [require_admin()], it passes exactly when no secret is
    configured. *)
Theorem require_admin_passes admin_key h :
  (require_admin admin_key (HeaderValue h) = inr true
   ↔ truthy admin_key = None ∨ h = admin_key)
  ∧ (require_admin admin_key (HeaderValue h) = inr true
     ∨ require_admin admin_key (HeaderValue h)
       = inl (HTTPException 401 "Invalid admin key"))
  ∧ (require_admin admin_key HeaderInfo = inr true
     ↔ truthy admin_key = None).
Proof.
  rewrite require_admin_resolved. unfold require_admin.
  destruct admin_key as [k|]; simpl.
  2:{ split; [split; [by left | done] | split; [by left | done]]. }
  destruct (decide (k = "")) as [->|Hk]; simpl.
  { split; [split; [by left | done] | split; [by left | done]]. }
  split; [|split; [|done]].
  - destruct (decide (h = Some k)) as [->|Hne].
    + split; [by right | done].
    + split; [done|]. by intros [|].
  - destruct (decide (h = Some k)); [by left | by right].
Qed.

(** X16.  Importing the module succeeds exactly when no secret is
    configured; with any non-empty [ADMIN_API_KEY] it raises the 401 of the
    first [_=require_admin()], so that no request of any kind is served. *)
Theorem import_main_outcome admin_key w req db :
  (truthy admin_key = None
   → import_main admin_key = inr (mkApp true true true true)
     ∧ serve admin_key w req db
       = inr (dispatch (mkApp true true true true) w req db))
  ∧ (truthy admin_key ≠ None
     → import_main admin_key = inl (HTTPException 401 "Invalid admin key")
       ∧ serve admin_key w req db
         = inl (HTTPException 401 "Invalid admin key")).
Proof.
  unfold serve, import_main, require_admin.
  destruct (truthy admin_key) as [k|]; simpl; split; done.
Qed.

Lemma import_main_outcome_witness :
  import_main (Some "") = inr (mkApp true true true true)
  ∧ import_main (Some "k") = inl (HTTPException 401 "Invalid admin key").
Proof.
  split.
  - apply (import_main_outcome (Some "")
             (mkWorld example_order_id 0 None example_engine)
             (mkRequest None (GET_orders None)) None). reflexivity.
  - apply (import_main_outcome (Some "k")
             (mkWorld example_order_id 0 None example_engine)
             (mkRequest None (GET_orders None)) None). done.
Defined.

(** ** The identifier validator *)

Lemma bson_ObjectId_length s v :
  bson_ObjectId s = Some v
  → String.length s = 24%nat ∧ (length v ≤ 24)%nat.
Proof.
  unfold bson_ObjectId.
  destruct (Nat.eqb_spec (String.length s) 24) as [Hlen|]; [|done].
  intros Hv. destruct (fromhex_length 24 s v ltac:(lia) Hv) as [Hle _].
  split; [done | lia].
Qed.

(** X17.  What [ObjectIdStr.validate] accepts it returns as a string of
    exactly 24 characters, a string unchanged (upper-case digits are not
    put in lower case), and accepts again; it accepts every well-formed
    identifier.  It does not accept well-formed identifiers only: an
    accepted string that is not one stands for a value of fewer than twelve
    bytes, as a string of hex pairs with whitespace between them does. *)
Theorem ObjectIdStr_validate_accepts v s :
  (ObjectIdStr_validate v = inr s
   → (∀ o, v = PyObjectId o → wf_ObjectId o)
   → String.length s = 24%nat
     ∧ ObjectIdStr_validate (PyStr s) = inr s
     ∧ ∀ t, v = PyStr t ∨ v = PyOther t → s = t)
  ∧ (∀ oid, ObjectId_parse s = Some oid
            → ObjectIdStr_validate (PyStr s) = inr s)
  ∧ (ObjectIdStr_validate (PyStr s) = inr s
     → ObjectId_parse s = None
     → ∃ bytes, bson_ObjectId s = Some bytes ∧ (length bytes < 24)%nat).
Proof.
  split; [|split].
  - intros Hv Hwf. destruct v as [o|t|t]; simpl in Hv.
    + injection Hv as <-. specialize (Hwf o eq_refl).
      split; [by rewrite length_ObjectId_str|]. split.
      * simpl. by rewrite (bson_ObjectId_proper _ _ (ObjectId_parse_str o Hwf)).
      * by intros t [|].
    + destruct (bson_ObjectId t) as [b|] eqn:Hb; [|done]. injection Hv as <-.
      split; [by apply (bson_ObjectId_length t b)|]. split.
      * simpl. by rewrite Hb.
      * intros t' [[= <-]|]; done.
    + destruct (bson_ObjectId t) as [b|] eqn:Hb; [|done]. injection Hv as <-.
      split; [by apply (bson_ObjectId_length t b)|]. split.
      * simpl. by rewrite Hb.
      * intros t' [|[= <-]]; done.
  - intros oid Hp. simpl. by rewrite (bson_ObjectId_proper _ _ Hp).
  - simpl. destruct (bson_ObjectId s) as [b|] eqn:Hb; [|done].
    intros _ Hp. exists b. split; [done|].
    pose proof (bson_ObjectId_improper s b Hp Hb) as Hshort.
    destruct (bson_ObjectId_length s b Hb) as [_ Hle].
    unfold twelve_bytes in Hshort. apply Nat.eqb_neq in Hshort. lia.
Qed.

Lemma ObjectIdStr_validate_accepts_witness :
  ObjectIdStr_validate (PyStr "11111111111111111111ABCD")
  = inr "11111111111111111111ABCD"
  ∧ ObjectIdStr_validate (PyStr (ObjectId_str example_wheel_id))
    = inr (ObjectId_str example_wheel_id)
  ∧ ∃ bytes,
      bson_ObjectId "11 11 11 11 11 11 11 11 " = Some bytes
      ∧ (length bytes < 24)%nat.
Proof.
  split; [|split].
  - destruct (ObjectIdStr_validate_accepts (PyStr "")
                "11111111111111111111ABCD") as (_ & Hwell & _).
    by apply (Hwell (replicate 20 H1 ++ [Ha; Hb; Hc; Hd])).
  - destruct (ObjectIdStr_validate_accepts (PyObjectId example_wheel_id)
                (ObjectId_str example_wheel_id)) as (Hagain & _ & _).
    apply Hagain; [reflexivity|]. intros o [= <-]. reflexivity.
  - destruct (ObjectIdStr_validate_accepts (PyStr "")
                "11 11 11 11 11 11 11 11 ") as (_ & _ & Hshort).
    by apply Hshort.
Defined.

(** ** The connectivity probe *)

Lemma count_take_chars n s : (count_chars (take_chars n s) ≤ n)%nat.
Proof.
  revert n. induction s as [|c s IH]; intros n; simpl; [lia|].
  destruct (is_continuation c) eqn:Hc; simpl; rewrite ?Hc; [apply IH|].
  destruct n as [|n]; simpl; rewrite ?Hc; [lia|].
  specialize (IH n). lia.
Qed.

Lemma count_chars_app a b :
  count_chars (a +:+ b) = (count_chars a + count_chars b)%nat.
Proof.
  induction a as [|c a IH]; simpl; [done|].
  destruct (is_continuation c); simpl; by rewrite IH.
Qed.

(** A string of at most [n] code points is its own prefix of length [n]. *)
Lemma take_chars_short n s : (count_chars s ≤ n)%nat → take_chars n s = s.
Proof.
  revert n. induction s as [|c s IH]; intros n; simpl; [done|].
  destruct (is_continuation c); [intros H; by rewrite IH|].
  destruct n as [|n]; [lia|]. intros H. rewrite IH; [done | lia].
Qed.

(** X18.  The connectivity probe always reports the backend as running.
    It lists collections only in an answer that says "Connected"; and when
    listing the collections fails, the answer carries the warning sign and at
    most the first 80 characters of the error, the whole of it when it is
    no longer than that, while the database name and the URL flag already
    written stay and no collection is listed. *)
Theorem test_database_report url db :
  backend (test_database url db) = "✅ Running"
  ∧ (collections (test_database url db) ≠ []
     → database (test_database url db) = "✅ Connected")
  ∧ (db = None
     → test_database url db
       = mkProbe "✅ Running" "❌ Not Available" "❌ Not Set" "❌ Not Set" [])
  ∧ ∀ d msg,
      db = Some d
      → list_collection_names d = inl msg
      → database (test_database url db) = "⚠️ " +:+ take_chars 80 msg
        ∧ (count_chars (database (test_database url db)) ≤ 83)%nat
        ∧ ((count_chars msg ≤ 80)%nat
           → database (test_database url db) = "⚠️ " +:+ msg)
        ∧ database_name (test_database url db) = db_name d
        ∧ collections (test_database url db) = [].
Proof.
  split; [|split; [|split]].
  - destruct db as [d|]; [|done]. simpl.
    by destruct (list_collection_names d).
  - destruct db as [d|]; [|done]. simpl.
    by destruct (list_collection_names d).
  - by intros ->.
  - intros d msg -> Hmsg. simpl. rewrite Hmsg. simpl.
    split; [done|]. split; [|split; [|done]].
    + change (count_chars ("⚠️ " +:+ take_chars 80 msg) ≤ 83)%nat.
      rewrite count_chars_app.
      pose proof (count_take_chars 80 msg).
      change (count_chars "⚠️ ") with 3%nat. lia.
    + intros Hshort.
      change ("⚠️ " +:+ take_chars 80 msg = "⚠️ " +:+ msg).
      by rewrite take_chars_short.
Qed.

Lemma test_database_report_witness :
  database
    (test_database (Some "mongodb://localhost")
       (Some (mkDatabase "shop" (inl "connection refused"))))
  = "⚠️ connection refused"
  ∧ database_name
      (test_database (Some "mongodb://localhost")
         (Some (mkDatabase "shop" (inl "connection refused"))))
    = "shop".
Proof.
  destruct (test_database_report (Some "mongodb://localhost")
              (Some (mkDatabase "shop" (inl "connection refused"))))
    as (_ & _ & _ & Hfail).
  destruct (Hfail _ _ eq_refl eq_refl) as (_ & _ & Hshort & Hname & _).
  split; [|exact Hname]. apply Hshort. simpl. lia.
Defined.
